(** * Line follower on a PIC18F87K22: a shallow embedding of [main.c]

    The control core of the robot is one translation unit, [main.c]: the
    polling loop [main], the two interrupt service routines [HiPriISR] and
    [LoPriISR], and the helpers [process_measurement], [update_sensor],
    [update_encoders] and [convert_array_to_inputs].

    Globals and special function registers become fields of one record,
    threaded explicitly through every routine.  Calls into the other
    translation units that only act on the outside world (motors, display,
    sleep) are recorded, in order, in a trace.  Reading an automatic
    variable that was never assigned is undefined in C: the one routine
    that can do so returns [option].

    An interrupt service routine runs to completion between two pieces of
    the polling loop; what the hardware does in between (pins, timers,
    finished conversions, pending flags) is an input of the model. *)

From Stdlib Require Import ZArith List Bool Lia.
Import ListNotations.
Open Scope Z_scope.

(** ** Machine integers (XC8, PIC18) *)

(** Plain [char] is unsigned and 8 bits wide under XC8. *)
Definition to_char (z : Z) : Z := z mod 256.

(** [short] and [int] are both 16-bit two's complement. *)
Definition to_short (z : Z) : Z := (z + 32768) mod 65536 - 32768.

Definition bit_of (b : bool) : Z := if b then 1 else 0.

(** ** Constants of [main.c] *)

Definition READINGS_MAX : Z := 2.
Definition ADC_CUTOFF : Z := 3500.
Definition OBSERVE : Z := 5000.
Definition CONTROL : Z := 50000.
Definition DISPLAY : Z := 25000.
Definition DEBOUNCE : Z := 10000.

Definition ENC_1A : Z := 5.
Definition ENC_1B : Z := 4.
Definition ENC_2A : Z := 7.
Definition ENC_2B : Z := 6.

(** ** Sensors *)

(** The three statically allocated sensors; a value of this type stands
    for the address [&IR_1], [&IR_2] or [&IR_3]. *)
Inductive sensor_ptr : Type := IR_1 | IR_2 | IR_3.

Definition sensor_ptr_eqb (p q : sensor_ptr) : bool :=
  match p, q with
  | IR_1, IR_1 | IR_2, IR_2 | IR_3, IR_3 => true
  | _, _ => false
  end.

(** Modelled from the spec: [struct IRSensor] is declared in
    [ir_sensors.h], which is not part of the sources at hand.  The spec
    lists its fields in the order of the initialisers of [main.c]:
    sampling-channel selector, bit index in the line pattern, bit index in
    the display pattern, signed offset, reference to the next sensor.
    [main.c] itself names [index], [led] and [next_sensor]. *)
Record IRSensor : Type := {
  channel : Z;
  index : Z;
  led : Z;
  offset : Z;
  next_sensor : sensor_ptr
}.

(** The sensor table once [init] has closed the ring
    ([IR_1.next_sensor = &IR_2] and so on).  The other fields are the
    initialisers [{0b00000101, 0, 6, 1, 0}], [{0b00001001, 1, 5, 0, 0}]
    and [{0b00001101, 2, 4, -1, 0}]. *)
Definition sensors (p : sensor_ptr) : IRSensor :=
  match p with
  | IR_1 => {| channel := 5; index := 0; led := 6; offset := 1;
               next_sensor := IR_2 |}
  | IR_2 => {| channel := 9; index := 1; led := 5; offset := 0;
               next_sensor := IR_3 |}
  | IR_3 => {| channel := 13; index := 2; led := 4; offset := -1;
               next_sensor := IR_1 |}
  end.

(** The same three sensors wired into another ring: only [next_sensor]
    differs from [sensors]. *)
Definition rewire (nxt : sensor_ptr -> sensor_ptr) (p : sensor_ptr) : IRSensor :=
  {| channel := channel (sensors p); index := index (sensors p);
     led := led (sensors p); offset := offset (sensors p);
     next_sensor := nxt p |}.

(** Modelled from the spec: [convert_measurement_to_binary] lives in
    [ir_sensors.c]; the spec gives "raw analog value >= fixed cutoff =>
    bit set; otherwise cleared". *)
Definition convert_measurement_to_binary (reading cutoff : Z) : Z :=
  if cutoff <=? reading then 1 else 0.

(** ** Encoders *)

(** Modelled from the spec: [struct Encoder] is declared in [encoders.h],
    not part of the sources at hand.  The spec lists two input-pin
    identifiers, a shift history of the sampled pin pairs and a running
    signed tick count; [main.c] names [reading] and [count].  [reading] is
    taken as a [char] and [count] as a 16-bit signed integer. *)
Record Encoder : Type := {
  pin_a : Z;
  pin_b : Z;
  reading : Z;
  count : Z
}.

(** Modelled from the spec: [init_encoder] (in [encoders.c]) fills the
    struct from the two pin numbers, with an empty history and no ticks. *)
Definition init_encoder (a b : Z) : Encoder :=
  {| pin_a := a; pin_b := b; reading := 0; count := 0 |}.

(** The transition table of [update_encoders], indexed by the 4-bit
    history (previous pin pair in bits 3..2, new pin pair in bits 1..0). *)
Definition lookup_table : list Z :=
  [ 0; -1;  1;  0;
    1;  0;  0; -1;
   -1;  0;  0;  1;
    0;  1; -1;  0].

Definition lookup (i : Z) : Z := nth (Z.to_nat i) lookup_table 0.

(** The body of [update_encoders] as it acts on [encoder_A], given the
    value read from [PORTB]. *)
Definition shift_in (portb : Z) (e : Encoder) : Encoder :=
  let enc_dual := Z.shiftr (Z.land portb 240) 4 in
  let reading1 := to_char (Z.shiftl (reading e) 2) in
  let test := Z.land enc_dual 3 in
  let reading2 := Z.lor reading1 test in
  {| pin_a := pin_a e; pin_b := pin_b e;
     reading := reading2;
     count := to_short (count e + lookup (Z.land reading2 15)) |}.

(** ** Steering classifier *)

(** [convert_array_to_inputs]: the two duty cycles are written through
    pointers, so their previous contents come in as arguments and go out
    unchanged when no case assigns them.  [None] is an object that holds
    no assigned value: the caller's locals before the call, and [status]
    when [meas] matches none of the eight cases (the switch has no
    default). *)
Definition convert_array_to_inputs (dcR dcL : option Z) (meas : Z)
  : option Z * option Z * option Z :=
  match meas with
  | 0 => (dcR, dcL, Some 1)
  | 5 => (dcR, dcL, Some 1)
  | 7 => (dcR, dcL, Some 2)
  | 1 => (Some 50, Some 0, Some 0)
  | 3 => (Some 35, Some 15, Some 0)
  | 2 => (Some 25, Some 25, Some 0)
  | 6 => (Some 15, Some 35, Some 0)
  | 4 => (Some 0, Some 50, Some 0)
  | _ => (dcR, dcL, None)
  end.

(** ** The machine state *)

(** The byte- and word-sized globals of [main.c], together with
    [adc_reading_number], the one local of [main] that lives across
    iterations of its loop. *)
Inductive var : Type :=
  | go_flag | go_flag_0 | button_state | button_state_0
  | count_lost | count_stop
  | adc_flag | adc_reading | IR_meas_array | IR_temp_array
  | encoder_readings_old | display_value | blink_count
  | adc_reading_number.

(** Special function registers read or written as whole bytes or words.
    [ADRES] is the conversion result of the ADC. *)
Inductive reg : Type :=
  | PORTB | ADRES | TMR1L | TMR1H
  | CCPR3L | CCPR3H | CCPR6L | CCPR6H | CCPR7L | CCPR7H.

(** Single bits of [PIR1], [PIE1], [PIR4], [PIE4], [INTCON], [ADCON0]. *)
Inductive bit : Type :=
  | SSP1IF | ADIF | ADIE | GO | RBIF | INT0IF | INT0IE
  | CCP3IF | CCP6IF | CCP7IF | CCP7IE.

Scheme Equality for var.
Scheme Equality for reg.
Scheme Equality for bit.

(** Calls that leave the translation unit and act on the robot. *)
Inductive call : Type :=
  | execute_delivery
  | pause_delivery
  | load_byte (b : Z)
  | delay_ms (ms : Z)
  | motors_turn_around
  | enter_sleep_mode
  | motors_drive (dcR dcL : Z)
  | display_byte.

Record machine : Type := {
  mem : var -> Z;
  regs : reg -> Z;
  bits : bit -> bool;
  sensor_read : sensor_ptr;
  sensor_next : sensor_ptr;
  encoder_A : Encoder;
  encoder_B : Encoder;
  trace : list call
}.

Definition wr (x : var) (v : Z) (m : machine) : machine :=
  {| mem := fun y => if var_beq y x then v else mem m y;
     regs := regs m; bits := bits m;
     sensor_read := sensor_read m; sensor_next := sensor_next m;
     encoder_A := encoder_A m; encoder_B := encoder_B m;
     trace := trace m |}.

Definition wreg (r : reg) (v : Z) (m : machine) : machine :=
  {| mem := mem m;
     regs := fun y => if reg_beq y r then v else regs m y;
     bits := bits m;
     sensor_read := sensor_read m; sensor_next := sensor_next m;
     encoder_A := encoder_A m; encoder_B := encoder_B m;
     trace := trace m |}.

Definition wbit (b : bit) (v : bool) (m : machine) : machine :=
  {| mem := mem m; regs := regs m;
     bits := fun y => if bit_beq y b then v else bits m y;
     sensor_read := sensor_read m; sensor_next := sensor_next m;
     encoder_A := encoder_A m; encoder_B := encoder_B m;
     trace := trace m |}.

Definition set_sensor_read (p : sensor_ptr) (m : machine) : machine :=
  {| mem := mem m; regs := regs m; bits := bits m;
     sensor_read := p; sensor_next := sensor_next m;
     encoder_A := encoder_A m; encoder_B := encoder_B m;
     trace := trace m |}.

Definition set_sensor_next (p : sensor_ptr) (m : machine) : machine :=
  {| mem := mem m; regs := regs m; bits := bits m;
     sensor_read := sensor_read m; sensor_next := p;
     encoder_A := encoder_A m; encoder_B := encoder_B m;
     trace := trace m |}.

Definition set_encoder_A (e : Encoder) (m : machine) : machine :=
  {| mem := mem m; regs := regs m; bits := bits m;
     sensor_read := sensor_read m; sensor_next := sensor_next m;
     encoder_A := e; encoder_B := encoder_B m;
     trace := trace m |}.

(** An external call is appended to the trace, oldest call first. *)
Definition do_call (c : call) (m : machine) : machine :=
  {| mem := mem m; regs := regs m; bits := bits m;
     sensor_read := sensor_read m; sensor_next := sensor_next m;
     encoder_A := encoder_A m; encoder_B := encoder_B m;
     trace := trace m ++ [c] |}.

(** The hardware rewrites the special function registers between two
    pieces of code: pins change, timers run, conversions finish. *)
Definition hardware (r : reg -> Z) (b : bit -> bool) (m : machine) : machine :=
  {| mem := mem m; regs := r; bits := b;
     sensor_read := sensor_read m; sensor_next := sensor_next m;
     encoder_A := encoder_A m; encoder_B := encoder_B m;
     trace := trace m |}.

(** The state in which [main] enters its loop: the initialisers of the
    globals, the ring cursors on [IR_1], the encoders as [init] fills
    them.  What [init] and the drivers leave in the registers is not
    known here, so they are arbitrary. *)
Definition boot (r : reg -> Z) (b : bit -> bool) : machine :=
  {| mem := fun _ => 0; regs := r; bits := b;
     sensor_read := IR_1; sensor_next := IR_1;
     encoder_A := init_encoder ENC_1A ENC_1B;
     encoder_B := init_encoder ENC_2A ENC_2B;
     trace := [] |}.

(** [PORTBbits.RB0] *)
Definition RB0 (m : machine) : Z := bit_of (Z.testbit (regs m PORTB) 0).

(** Modelled from the spec: [go_button_handler] lives in [go_button.c];
    the spec has a confirmed button event "invert the go/stop latch", a
    two-valued latch. *)
Definition go_button_handler (flag : Z) : Z := if flag =? 0 then 1 else 0.

(** Modelled from the spec: [read_and_update_ADC] lives in
    [ir_sensors.c]; it hands back the raw sample of the finished
    conversion.  What it loads into the converter for the next
    acquisition touches no object of [main.c] and is left out. *)
Definition read_and_update_ADC (m : machine) : Z := regs m ADRES.

(** ** The routines of [main.c] *)

(** What running a piece of code can come to: it returns, it reads an
    object that was never assigned, or the allotted number of loop passes
    is used up. *)
Inductive outcome : Type :=
  | Returns (m : machine)
  | Undefined
  | OutOfFuel.

(** One pass through the body of a [while(1)] dispatch loop. *)
Inductive pass : Type :=
  | Continue (m : machine)
  | Break
  | Faulty.

Fixpoint dispatch (body : machine -> pass) (fuel : nat) (m : machine) : outcome :=
  match fuel with
  | O => OutOfFuel
  | S k =>
      match body m with
      | Continue m' => dispatch body k m'
      | Break => Returns m
      | Faulty => Undefined
      end
  end.

Section Program.

(** The sensor table the pointers [sensor_read] and [sensor_next] are
    dereferenced in; [sensors] is the one of [main.c]. *)
Variable IR : sensor_ptr -> IRSensor.

(** [blink_handler] lives in [shift_register.c]: from [blink_count] and
    the display byte it gives the new count and the new display byte. *)
Variable blink_handler : Z -> Z -> Z * Z.

(** [process_measurement (reading, meas, disp)]; both pointers are the
    addresses of globals. *)
Definition process_measurement (rd : Z) (meas disp : var) (m : machine) : machine :=
  let val := convert_measurement_to_binary rd ADC_CUTOFF in
  if negb (val =? 0) then
    let m1 := wr meas (to_char (Z.lor (mem m meas)
                         (Z.shiftl 1 (index (IR (sensor_read m)))))) m in
    wr disp (to_char (Z.lor (mem m1 disp)
               (Z.shiftl 1 (led (IR (sensor_read m1)))))) m1
  else
    let m1 := wr meas (to_char (Z.land (mem m meas)
                         (Z.lnot (Z.shiftl 1 (index (IR (sensor_read m))))))) m in
    wr disp (to_char (Z.land (mem m1 disp)
               (Z.lnot (Z.shiftl 1 (led (IR (sensor_read m1))))))) m1.

(** [update_sensor (reading)]: the returned [char] and the new state. *)
Definition update_sensor (rd : Z) (m : machine) : Z * machine :=
  if negb (sensor_ptr_eqb (sensor_next m) (sensor_read m)) then
    (0, set_sensor_read (sensor_next m) m)
  else if rd =? READINGS_MAX then
    (rd, set_sensor_next (next_sensor (IR (sensor_read m))) m)
  else
    (rd, m).

Definition update_encoders (m : machine) : machine :=
  set_encoder_A (shift_in (regs m PORTB) (encoder_A m)) m.

(** *** [main]: one iteration of [while(1)], block by block *)

Definition main_go (m : machine) : machine :=
  if negb (mem m go_flag =? mem m go_flag_0) then
    let m1 :=
      if mem m go_flag =? 1 then do_call execute_delivery m
      else if mem m go_flag =? 0 then do_call pause_delivery m
      else m in
    wr go_flag_0 (mem m1 go_flag) m1
  else m.

Definition main_publish (m : machine) : machine :=
  if sensor_ptr_eqb (sensor_read m) IR_1 && (mem m adc_reading_number =? 0) then
    wr IR_meas_array (mem m IR_temp_array) m
  else m.

Definition main_adc (m : machine) : machine :=
  if negb (mem m adc_flag =? 0) then
    let m1 := wr adc_reading_number (to_char (mem m adc_reading_number + 1)) m in
    let m2 :=
      if negb (mem m1 adc_reading_number =? 1) then
        let m' := process_measurement (mem m1 adc_reading)
                    IR_temp_array display_value m1 in
        let (r, m'') := update_sensor (mem m' adc_reading_number) m' in
        wr adc_reading_number r m''
      else m1 in
    wbit GO true (wr adc_flag 0 m2)
  else m.

(** [for (int i = 0; i < n; ++i)] around the four calls of a flash. *)
Fixpoint flash (n : nat) (ms : Z) (m : machine) : machine :=
  match n with
  | O => m
  | S k =>
      flash k ms
        (do_call (delay_ms ms) (do_call (load_byte 0)
          (do_call (delay_ms ms) (do_call (load_byte 255) m))))
  end.

Definition main_lost (m : machine) : machine :=
  if mem m count_lost >? 10 then
    let m1 := do_call pause_delivery m in
    let m2 := flash 10 100 m1 in
    wr count_lost 0 (wr go_flag_0 0 (wr go_flag 0 m2))
  else m.

Definition main_stop (m : machine) : machine :=
  if mem m count_stop >? 10 then
    let m1 := do_call pause_delivery m in
    let m2 := flash 2 1000 m1 in
    let m3 := do_call motors_turn_around m2 in
    let m4 := wr count_stop 0 (wr go_flag_0 0 (wr go_flag 0 m3)) in
    let m5 := do_call enter_sleep_mode m4 in
    wbit ADIE true m5
  else m.

Definition main_loop (m : machine) : machine :=
  main_stop (main_lost (main_adc (main_publish (main_go m)))).

(** *** [HiPriISR] *)

Definition hi_spi (m : machine) : machine :=
  wbit SSP1IF false (do_call display_byte m).

Definition hi_button (m : machine) : machine :=
  let m1 := wreg CCPR7L (to_char (regs m TMR1L + to_char (Z.land DEBOUNCE 255))) m in
  let m2 := wreg CCPR7H
              (to_char (regs m1 TMR1H
                        + to_char (Z.land (Z.shiftr DEBOUNCE 8) 255))) m1 in
  let m3 := wbit CCP7IE true (wbit CCP7IF false m2) in
  let m4 := wbit INT0IF false (wbit INT0IE false m3) in
  wr button_state_0 (RB0 m4) m4.

Definition HiPri_pass (m : machine) : pass :=
  if bits m SSP1IF then Continue (hi_spi m)
  else if bits m INT0IF then Continue (hi_button m)
  else Break.

Definition HiPriISR (m : machine) : outcome := dispatch HiPri_pass 3 m.

(** *** [LoPriISR] *)

Definition lo_adc (m : machine) : machine :=
  let m1 := wr adc_reading (to_short (read_and_update_ADC m)) m in
  wbit ADIF false (wr adc_flag 1 m1).

Definition lo_encoder (m : machine) : machine :=
  wbit RBIF false (update_encoders m).

Definition lo_debounce (m : machine) : machine :=
  let m1 := wr button_state (RB0 m) m in
  let m2 :=
    if negb (mem m1 button_state =? 0) && negb (mem m1 button_state_0 =? 0) then
      wr go_flag (go_button_handler (mem m1 go_flag)) m1
    else m1 in
  wbit INT0IE true (wbit INT0IF false (wbit CCP7IF false (wbit CCP7IE false m2))).

Definition lo_display (m : machine) : machine :=
  let m1 := wreg CCPR6L (to_char (regs m CCPR6L + to_char (Z.land DISPLAY 255))) m in
  let m2 := wreg CCPR6H
              (to_char (regs m1 CCPR6H
                        + to_char (Z.land (Z.shiftr DISPLAY 8) 255))) m1 in
  let (cnt, disp) := blink_handler (mem m2 blink_count) (mem m2 display_value) in
  let m3 := wr blink_count cnt (wr display_value disp m2) in
  wbit CCP6IF false (do_call (load_byte (mem m3 display_value)) m3).

(** The control period.  [DCRight], [DCLeft] and [status] are fresh
    automatic variables at every pass; [None] stands for a use of one of
    them that no case of the classifier assigned. *)
Definition lo_control (m : machine) : option machine :=
  let m1 := wreg CCPR3L (to_char (regs m CCPR3L + to_char (Z.land CONTROL 255))) m in
  let m2 := wreg CCPR3H
              (to_char (regs m1 CCPR3H
                        + to_char (Z.land (Z.shiftr CONTROL 8) 255))) m1 in
  match convert_array_to_inputs None None (mem m2 IR_meas_array) with
  | (DCRight, DCLeft, Some status) =>
      if status =? 0 then
        match DCRight, DCLeft with
        | Some r, Some l =>
            Some (wbit CCP3IF false
                    (wr count_stop 0 (wr count_lost 0 (do_call (motors_drive r l) m2))))
        | _, _ => None
        end
      else if status =? 1 then
        Some (wbit CCP3IF false (wr count_lost (to_char (mem m2 count_lost + 1)) m2))
      else if status =? 2 then
        Some (wbit CCP3IF false (wr count_stop (to_char (mem m2 count_stop + 1)) m2))
      else Some (wbit CCP3IF false m2)
  | (_, _, None) => None
  end.

Definition LoPri_pass (m : machine) : pass :=
  if bits m ADIF then Continue (lo_adc m)
  else if bits m RBIF then Continue (lo_encoder m)
  else if bits m CCP7IF && bits m CCP7IE then Continue (lo_debounce m)
  else if bits m CCP6IF then Continue (lo_display m)
  else if bits m CCP3IF then
    match lo_control m with
    | Some m' => Continue m'
    | None => Faulty
    end
  else Break.

Definition LoPriISR (m : machine) : outcome := dispatch LoPri_pass 6 m.

(** *** The system: hardware, interrupts and the polling loop *)

Inductive event : Type :=
  | Hardware (r : reg -> Z) (b : bit -> bool)
  | HighPriority
  | LowPriority
  | MainLoop.

Definition fire (e : event) (m : machine) : outcome :=
  match e with
  | Hardware r b => Returns (hardware r b m)
  | HighPriority => HiPriISR m
  | LowPriority => LoPriISR m
  | MainLoop => Returns (main_loop m)
  end.

Fixpoint run (es : list event) (m : machine) : outcome :=
  match es with
  | [] => Returns m
  | e :: es' =>
      match fire e m with
      | Returns m' => run es' m'
      | bad => bad
      end
  end.

Inductive reachable : machine -> Prop :=
  | reach_boot r b : reachable (boot r b)
  | reach_fire e m m' : reachable m -> fire e m = Returns m' -> reachable m'.

End Program.

(** ** Scenarios

    The vocabulary the properties below are stated in. *)

(** A machine that has just entered the loop of [main], with nothing
    pending. *)
Definition quiet_regs : reg -> Z := fun _ => 0.
Definition quiet_bits : bit -> bool := fun _ => false.
Definition power_on : machine := boot quiet_regs quiet_bits.

(** The status the classifier returns for a pattern. *)
Definition status_of (meas : Z) : option Z :=
  snd (convert_array_to_inputs None None meas).

(** A quadrature pin pair, and the history made of two of them. *)
Definition pins (a b : bool) : Z := 2 * bit_of a + bit_of b.
Definition history (old new : Z) : Z := Z.lor (Z.shiftl old 2) new.

(** The ticks a sequence of histories adds up to, each looked up as
    [update_encoders] does. *)
Fixpoint net_delta (hs : list Z) : Z :=
  match hs with
  | [] => 0
  | h :: t => lookup (Z.land h 15) + net_delta t
  end.

(** The same motion run backwards: every transition with its old and new
    pin pairs exchanged, last transition first. *)
Definition swap_history (h : Z) : Z :=
  let k := Z.land h 15 in
  Z.lor (Z.shiftl (Z.land k 3) 2) (Z.shiftr k 2).

Definition reverse_motion (hs : list Z) : list Z := rev (map swap_history hs).

(** The port shows [portb] and the pin-change branch calls
    [update_encoders]. *)
Definition turn (portb : Z) (m : machine) : machine :=
  update_encoders (wreg PORTB portb m).

Definition turns (ports : list Z) (m : machine) : machine :=
  fold_left (fun m p => turn p m) ports m.

(** A conversion finishes with result [v]; the ADC branch of [LoPriISR]
    takes it and [main] runs one iteration. *)
Definition deliver (IR : sensor_ptr -> IRSensor) (v : Z) (m : machine) : machine :=
  main_loop IR (lo_adc (wreg ADRES v m)).

Definition delivers (IR : sensor_ptr -> IRSensor) (vs : list Z) (m : machine)
  : machine :=
  fold_left (fun m v => deliver IR v m) vs m.

(** The bit a sample leaves in the pattern. *)
Definition above_cutoff (v : Z) : bool := ADC_CUTOFF <=? to_short v.

(** [n] control periods served one after the other. *)
Fixpoint ticks (n : nat) (m : machine) : option machine :=
  match n with
  | O => Some m
  | S k =>
      match lo_control m with
      | Some m' => ticks k m'
      | None => None
      end
  end.

(** A control period followed by one iteration of [main], [n] times. *)
Fixpoint control_periods (IR : sensor_ptr -> IRSensor) (n : nat) (m : machine)
  : option machine :=
  match n with
  | O => Some m
  | S k =>
      match lo_control m with
      | Some m' => control_periods IR k (main_loop IR m')
      | None => None
      end
  end.

(** The calls of one alert: [n] flashes of [ms] milliseconds on and off. *)
Fixpoint flashes (n : nat) (ms : Z) : list call :=
  match n with
  | O => []
  | S k => [load_byte 255; delay_ms ms; load_byte 0; delay_ms ms] ++ flashes k ms
  end.

(** A raw edge arms the debouncer while the port shows [p1]; the debounce
    timer fires while it shows [p2]. *)
Definition debounce (p1 p2 : Z) (m : machine) : machine :=
  lo_debounce (wreg PORTB p2 (hi_button (wreg PORTB p1 m))).

(** The pending low-priority sources of a machine. *)
Definition pending (m : machine) : nat :=
  (if bits m ADIF then 1 else 0) + (if bits m RBIF then 1 else 0)
  + (if bits m CCP7IF && bits m CCP7IE then 1 else 0)
  + (if bits m CCP6IF then 1 else 0) + (if bits m CCP3IF then 1 else 0).

(** The three sensors are visited in a ring that starts and ends at
    [IR_1]. *)
Definition ring (IR : sensor_ptr -> IRSensor) : Prop :=
  let s1 := next_sensor (IR IR_1) in
  let s2 := next_sensor (IR s1) in
  s1 <> IR_1 /\ s2 <> IR_1 /\ s2 <> s1 /\ next_sensor (IR s2) = IR_1.

(** The sensors own distinct bits of a [char]. *)
Definition own_bits (IR : sensor_ptr -> IRSensor) : Prop :=
  (forall p, 0 <= index (IR p) <= 7)
  /\ (forall p q, index (IR p) = index (IR q) -> p = q).

(** The pattern [t] with the bit at [i] set or cleared, as
    [process_measurement] leaves it. *)
Definition fold_bit (b : bool) (i t : Z) : Z :=
  if b then to_char (Z.lor t (Z.shiftl 1 i))
  else to_char (Z.land t (Z.lnot (Z.shiftl 1 i))).

(** Where the sampler stands: the two cursors, the reading counter, the
    pattern being built and the published one. *)
Definition sampler_at (m : machine) (s s' : sensor_ptr) (n t p : Z) : Prop :=
  sensor_read m = s /\ sensor_next m = s' /\ mem m adc_reading_number = n
  /\ mem m IR_temp_array = t /\ mem m IR_meas_array = p.

(** A sample has arrived and waits for [main]. *)
Definition sample_waiting (m : machine) (r : Z) : Prop :=
  mem m adc_flag = 1 /\ mem m adc_reading = r.

(** Both patterns hold only the three sensor bits. *)
Definition patterns_ok (m : machine) : Prop :=
  0 <= mem m IR_temp_array <= 7 /\ 0 <= mem m IR_meas_array <= 7.

(** The pending high-priority sources of a machine. *)
Definition hi_pending (m : machine) : nat :=
  (if bits m SSP1IF then 1 else 0) + (if bits m INT0IF then 1 else 0).

(** What a pass of either routine keeps: the two patterns, the cursors
    and the second encoder. *)
Definition kept (m m' : machine) : Prop :=
  mem m' IR_temp_array = mem m IR_temp_array
  /\ mem m' IR_meas_array = mem m IR_meas_array
  /\ sensor_read m' = sensor_read m /\ sensor_next m' = sensor_next m
  /\ mem m' adc_reading_number = mem m adc_reading_number
  /\ encoder_B m' = encoder_B m.

(** No button edge to act on, no sample waiting, and the pattern being
    built equal to the published one. *)
Definition calm (m : machine) : Prop :=
  mem m go_flag = mem m go_flag_0 /\ mem m adc_flag = 0
  /\ mem m IR_temp_array = mem m IR_meas_array.

(** Two machines that agree on the globals, the bits and the trace. *)
Definition same (m m' : machine) : Prop :=
  (forall x, mem m x = mem m' x) /\ bits m = bits m' /\ trace m = trace m'.

(** Scenario: a round of samples above the cutoff, published. *)
Definition all_high : machine :=
  main_loop sensors
    (delivers sensors
       [4000; 4000; 4000; 4000; 4000; 4000; 4000; 4000; 4000] power_on).

(** Scenario: ten lost periods, a round above the cutoff and one stop
    period, a round below the cutoff; then one more lost period. *)
Definition ten_lost_stop : option machine :=
  match control_periods sensors 10 power_on with
  | Some m1 =>
      match control_periods sensors 1
              (main_loop sensors
                 (delivers sensors
                    [4000; 4000; 4000; 4000; 4000; 4000; 4000; 4000; 4000] m1))
      with
      | Some m2 =>
          Some (main_loop sensors
                  (delivers sensors [0; 0; 0; 0; 0; 0; 0; 0; 0] m2))
      | None => None
      end
  | None => None
  end.

Definition ten_lost_stop_lost : option machine :=
  match ten_lost_stop with
  | Some m => control_periods sensors 1 m
  | None => None
  end.


(** ** More vocabulary *)

(** The pattern seen from the other side: the bits of the outer sensors
    exchanged. *)
Definition mirror (meas : Z) : Z :=
  Z.lor (Z.lor (Z.shiftl (Z.land meas 1) 2) (Z.land meas 2))
        (Z.land (Z.shiftr meas 2) 1).

(** The pin pair of the first wheel in a value of [PORTB]. *)
Definition pin_pair (portb : Z) : Z := (portb / 16) mod 4.

(** A compare register pair read as one 16-bit word. *)
Definition word (hi lo : Z) : Z := 256 * hi + lo.

(** The bytes a period is added as, and the period that results when the
    low bytes carry. *)
Definition rearm (period hi lo : Z) : Z :=
  (word hi lo + period - (if lo + period mod 256 <? 256 then 0 else 256))
  mod 65536.

(** The call the go block of [main] makes for a latch and its previous
    value. *)
Definition go_calls (flag flag_0 : Z) : list call :=
  if flag =? flag_0 then []
  else if flag =? 1 then [execute_delivery]
  else if flag =? 0 then [pause_delivery]
  else [].

(** [LoPriISR] written out: each source that was pending on entry is
    served once, in the order of the chain.  [m0] is the machine on entry,
    [m] what the sources served so far have made of it. *)
Definition serve_control (m0 m : machine) : outcome :=
  if bits m0 CCP3IF then
    match lo_control m with
    | Some m' => Returns m'
    | None => Undefined
    end
  else Returns m.

Definition serve_display (bh : Z -> Z -> Z * Z) (m0 m : machine) : outcome :=
  serve_control m0 (if bits m0 CCP6IF then lo_display bh m else m).

Definition serve_debounce (bh : Z -> Z -> Z * Z) (m0 m : machine) : outcome :=
  serve_display bh m0
    (if bits m0 CCP7IF && bits m0 CCP7IE then lo_debounce m else m).

Definition serve_encoder (bh : Z -> Z -> Z * Z) (m0 m : machine) : outcome :=
  serve_debounce bh m0 (if bits m0 RBIF then lo_encoder m else m).

Definition serve_low (bh : Z -> Z -> Z * Z) (m : machine) : outcome :=
  serve_encoder bh m (if bits m ADIF then lo_adc m else m).

(** The two phases of the sampler between two pieces of code: the cursors
    together with at most one sample taken, or the next cursor one step
    ahead with two samples taken; and the sample flag a plain 0 or 1. *)
Definition in_phase (IR : sensor_ptr -> IRSensor) (m : machine) : Prop :=
  (mem m adc_flag = 0 \/ mem m adc_flag = 1)
  /\ ((sensor_next m = sensor_read m
       /\ (mem m adc_reading_number = 0 \/ mem m adc_reading_number = 1))
      \/ (sensor_next m = next_sensor (IR (sensor_read m))
          /\ mem m adc_reading_number = 2)).

(** A call to the motor driver with duties it is made for. *)
Definition bounded_drive (c : call) : Prop :=
  match c with
  | motors_drive r l => 0 <= r <= 50 /\ 0 <= l <= 50 /\ r + l = 50
  | _ => True
  end.

(** The readings [update_encoders] goes through, from reading [r], as
    the port shows one value after the other. *)
Fixpoint readings (r : Z) (ports : list Z) : list Z :=
  match ports with
  | [] => []
  | p :: t =>
      let r' := Z.lor (to_char (Z.shiftl r 2))
                  (Z.land (Z.shiftr (Z.land p 240) 4) 3) in
      r' :: readings r' t
  end.

(** Control periods, each on the pattern published for it. *)
Fixpoint fault_periods (ps : list Z) (m : machine) : option machine :=
  match ps with
  | [] => Some m
  | p :: t =>
      match lo_control (wr IR_meas_array p m) with
      | Some m' => fault_periods t m'
      | None => None
      end
  end.

Definition is_lost (p : Z) : bool :=
  match status_of p with Some 1 => true | _ => false end.

Definition is_stop (p : Z) : bool :=
  match status_of p with Some 2 => true | _ => false end.

(** What the encoders look like in a running system. *)
Definition encoders_ok (m : machine) : Prop :=
  encoder_B m = init_encoder ENC_2A ENC_2B
  /\ pin_a (encoder_A m) = ENC_1A /\ pin_b (encoder_A m) = ENC_1B
  /\ 0 <= reading (encoder_A m) < 256
  /\ -32768 <= count (encoder_A m) <= 32767.

(** A blink handler to run the system with: it leaves count and display
    byte as they are. *)
Definition still_display (cnt disp : Z) : Z * Z := (cnt, disp).

(** A conversion finishes with result [v]; the control period is due. *)
Definition conversion_done (v : Z) : event :=
  Hardware (fun r => if reg_beq r ADRES then v else 0) (fun b => bit_beq b ADIF).

Definition control_due : event :=
  Hardware (fun _ => 0) (fun b => bit_beq b CCP3IF).

(** A round of samples in which only the middle sensor sees the line,
    each taken by [LoPriISR] and then by [main]; a further iteration of
    [main]; one control period. *)
Definition centred_events : list event :=
  flat_map (fun v => [conversion_done v; LowPriority; MainLoop])
    [0; 0; 0; 0; 0; 4000; 0; 0; 0]
  ++ [MainLoop; control_due; LowPriority].

(** A round of samples all above the cutoff, each taken by [LoPriISR] and
    then by [main]; a further iteration of [main]. *)
Definition high_events : list event :=
  flat_map (fun v => [conversion_done v; LowPriority; MainLoop])
    [4000; 4000; 4000; 4000; 4000; 4000; 4000; 4000; 4000]
  ++ [MainLoop].

(** The port shows [portb] after a pin change. *)
Definition pin_change (portb : Z) : event :=
  Hardware (fun r => if reg_beq r PORTB then portb else 0)
           (fun b => bit_beq b RBIF).

(** The centred round, then a pin change of the first wheel served by
    [LoPriISR] and an iteration of [main]. *)
Definition busy_events : list event :=
  centred_events ++ [pin_change 16; LowPriority; MainLoop].

(** What an outcome shows when it is a state: the published pattern (-1
    otherwise), the reading counter, the counts of the two encoders. *)
Definition pattern_of (o : outcome) : Z :=
  match o with
  | Returns m => mem m IR_meas_array
  | _ => -1
  end.

Definition counter_of (o : outcome) : Z :=
  match o with
  | Returns m => mem m adc_reading_number
  | _ => -1
  end.

Definition counts_of (o : outcome) : Z * Z :=
  match o with
  | Returns m => (count (encoder_A m), count (encoder_B m))
  | _ => (0, -1)
  end.

Definition trace_of (o : outcome) : list call :=
  match o with
  | Returns m => trace m
  | _ => []
  end.

(** * Properties *)

Lemma sensor_ptr_eqb_spec p q : reflect (p = q) (sensor_ptr_eqb p q).
Proof. destruct p, q; constructor; congruence. Qed.

Lemma sensor_ptr_eqb_refl p : sensor_ptr_eqb p p = true.
Proof. destruct p; reflexivity. Qed.

Lemma sensor_ptr_eqb_neq p q : p <> q -> sensor_ptr_eqb p q = false.
Proof. intros H. destruct (sensor_ptr_eqb_spec p q); congruence. Qed.

(** ** Bits of a pattern *)

Lemma testbit_one k : Z.testbit 1 k = (k =? 0).
Proof.
  destruct (Z.eqb_spec k 0) as [->|Hk]; [reflexivity|].
  destruct (Z_lt_le_dec k 0) as [Hn|Hp]; [apply Z.testbit_neg_r; lia|].
  apply Z.bits_above_log2; [lia | simpl; lia].
Qed.

Lemma fold_bit_testbit b i t j :
  0 <= i <= 7 -> 0 <= j <= 7 ->
  Z.testbit (fold_bit b i t) j = if j =? i then b else Z.testbit t j.
Proof.
  intros Hi Hj. unfold fold_bit, to_char. change 256 with (2 ^ 8).
  destruct b; rewrite Z.mod_pow2_bits_low by lia.
  - rewrite Z.lor_spec, Z.shiftl_spec, testbit_one by lia.
    destruct (Z.eqb_spec j i) as [->|Hne].
    + rewrite Z.sub_diag. apply orb_true_r.
    + replace (j - i =? 0) with false by (symmetry; apply Z.eqb_neq; lia).
      apply orb_false_r.
  - rewrite Z.land_spec, Z.lnot_spec, Z.shiftl_spec, testbit_one by lia.
    destruct (Z.eqb_spec j i) as [->|Hne].
    + rewrite Z.sub_diag. apply andb_false_r.
    + replace (j - i =? 0) with false by (symmetry; apply Z.eqb_neq; lia).
      apply andb_true_r.
Qed.

Lemma to_short_adc v : 0 <= v < 4096 -> to_short v = v.
Proof. intros H. unfold to_short. rewrite Z.mod_small by lia. lia. Qed.

(** ** What the blocks of [main] leave alone *)

Lemma flash_frame n ms : forall m,
  mem (flash n ms m) = mem m /\ regs (flash n ms m) = regs m
  /\ bits (flash n ms m) = bits m
  /\ sensor_read (flash n ms m) = sensor_read m
  /\ sensor_next (flash n ms m) = sensor_next m
  /\ encoder_A (flash n ms m) = encoder_A m
  /\ encoder_B (flash n ms m) = encoder_B m
  /\ trace (flash n ms m) = trace m ++ flashes n ms.
Proof.
  induction n as [|k IH]; intros m; simpl.
  - rewrite app_nil_r. repeat split.
  - destruct (IH (do_call (delay_ms ms) (do_call (load_byte 0)
               (do_call (delay_ms ms) (do_call (load_byte 255) m)))))
      as (H1 & H2 & H3 & H4 & H5 & H6 & H7 & H8).
    rewrite H1, H2, H3, H4, H5, H6, H7, H8. simpl.
    rewrite <- !app_assoc. repeat split.
Qed.

Lemma mem_wr x v m y : mem (wr x v m) y = if var_beq y x then v else mem m y.
Proof. reflexivity. Qed.

Lemma bits_wr x v m : bits (wr x v m) = bits m.
Proof. reflexivity. Qed.

Lemma trace_wr x v m : trace (wr x v m) = trace m.
Proof. reflexivity. Qed.

Lemma mem_wbit b v m : mem (wbit b v m) = mem m.
Proof. reflexivity. Qed.

Lemma bits_wbit b v m c :
  bits (wbit b v m) c = if bit_beq c b then v else bits m c.
Proof. reflexivity. Qed.

Lemma trace_wbit b v m : trace (wbit b v m) = trace m.
Proof. reflexivity. Qed.

Lemma mem_do_call c m : mem (do_call c m) = mem m.
Proof. reflexivity. Qed.

Lemma bits_do_call c m : bits (do_call c m) = bits m.
Proof. reflexivity. Qed.

Lemma trace_do_call c m : trace (do_call c m) = trace m ++ [c].
Proof. reflexivity. Qed.

Lemma main_go_sampler m s s' n t p :
  sampler_at m s s' n t p -> sampler_at (main_go m) s s' n t p.
Proof.
  unfold sampler_at, main_go. intros H.
  destruct (negb (mem m go_flag =? mem m go_flag_0)); [|exact H].
  destruct (mem m go_flag =? 1); [exact H|].
  destruct (mem m go_flag =? 0); exact H.
Qed.

Lemma main_go_waiting m r : sample_waiting m r -> sample_waiting (main_go m) r.
Proof.
  unfold sample_waiting, main_go. intros H.
  destruct (negb (mem m go_flag =? mem m go_flag_0)); [|exact H].
  destruct (mem m go_flag =? 1); [exact H|].
  destruct (mem m go_flag =? 0); exact H.
Qed.

Lemma main_lost_sampler m s s' n t p :
  sampler_at m s s' n t p -> sampler_at (main_lost m) s s' n t p.
Proof.
  unfold sampler_at, main_lost. intros H.
  destruct (mem m count_lost >? 10); [|exact H]. simpl.
  exact H.
Qed.

Lemma main_stop_sampler m s s' n t p :
  sampler_at m s s' n t p -> sampler_at (main_stop m) s s' n t p.
Proof.
  unfold sampler_at, main_stop. intros H.
  destruct (mem m count_stop >? 10); [|exact H]. simpl.
  exact H.
Qed.

Lemma main_lost_flag m : mem (main_lost m) adc_flag = mem m adc_flag.
Proof.
  unfold main_lost. destruct (mem m count_lost >? 10); [|reflexivity]. simpl.
  reflexivity.
Qed.

Lemma main_stop_flag m : mem (main_stop m) adc_flag = mem m adc_flag.
Proof.
  unfold main_stop. destruct (mem m count_stop >? 10); [|reflexivity]. simpl.
  reflexivity.
Qed.

Section Sampler.

Variable IR : sensor_ptr -> IRSensor.

(** The three ways a waiting sample is taken by [main]. *)
Lemma take_settling m s t p r :
  sampler_at m s s 0 t p -> sample_waiting m r ->
  sampler_at (main_adc IR (main_publish m)) s s 1 t
    (if sensor_ptr_eqb s IR_1 then t else p)
  /\ mem (main_adc IR (main_publish m)) adc_flag = 0.
Proof.
  intros (Hr & Hn & Hc & Ht & Hp) (Hf & Ha).
  unfold sampler_at, main_publish. rewrite Hr, Hc. simpl.
  destruct (sensor_ptr_eqb s IR_1); simpl;
    unfold main_adc; simpl; rewrite Hf, Hc; simpl; repeat split; auto.
Qed.

Lemma take_second m s t p r :
  sampler_at m s s 1 t p -> sample_waiting m r ->
  sampler_at (main_adc IR (main_publish m)) s (next_sensor (IR s)) 2
    (fold_bit (ADC_CUTOFF <=? r) (index (IR s)) t) p
  /\ mem (main_adc IR (main_publish m)) adc_flag = 0.
Proof.
  intros (Hr & Hn & Hc & Ht & Hp) (Hf & Ha).
  unfold main_publish. rewrite Hr, Hc, andb_false_r.
  unfold sampler_at, main_adc. rewrite Hf, Hc. simpl.
  unfold process_measurement, convert_measurement_to_binary. simpl.
  rewrite Ha, Hr, Ht. unfold fold_bit.
  destruct (ADC_CUTOFF <=? r); simpl; unfold update_sensor; simpl;
    rewrite Hn, Hr, sensor_ptr_eqb_refl; simpl; repeat split; auto.
Qed.

Lemma take_last m s s' t p r :
  s' <> s ->
  sampler_at m s s' 2 t p -> sample_waiting m r ->
  sampler_at (main_adc IR (main_publish m)) s' s' 0
    (fold_bit (ADC_CUTOFF <=? r) (index (IR s)) t) p
  /\ mem (main_adc IR (main_publish m)) adc_flag = 0.
Proof.
  intros Hne (Hr & Hn & Hc & Ht & Hp) (Hf & Ha).
  unfold main_publish. rewrite Hr, Hc, andb_false_r.
  unfold sampler_at, main_adc. rewrite Hf, Hc. simpl.
  unfold process_measurement, convert_measurement_to_binary. simpl.
  rewrite Ha, Hr, Ht. unfold fold_bit.
  destruct (ADC_CUTOFF <=? r); simpl; unfold update_sensor; simpl;
    rewrite Hn, Hr, (sensor_ptr_eqb_neq _ _ Hne); simpl; repeat split; auto.
Qed.

Lemma lo_adc_sampler m v s s' n t p :
  sampler_at m s s' n t p ->
  sampler_at (lo_adc (wreg ADRES v m)) s s' n t p
  /\ sample_waiting (lo_adc (wreg ADRES v m)) (to_short v).
Proof. intros H. split; [exact H | split; reflexivity]. Qed.

Lemma main_loop_tail m s s' n t p :
  sampler_at m s s' n t p -> mem m adc_flag = 0 ->
  sampler_at (main_stop (main_lost m)) s s' n t p
  /\ mem (main_stop (main_lost m)) adc_flag = 0.
Proof.
  intros H Hf. split.
  - apply main_stop_sampler, main_lost_sampler, H.
  - rewrite main_stop_flag, main_lost_flag. exact Hf.
Qed.

Lemma deliver_settling m v s t p :
  sampler_at m s s 0 t p ->
  sampler_at (deliver IR v m) s s 1 t (if sensor_ptr_eqb s IR_1 then t else p)
  /\ mem (deliver IR v m) adc_flag = 0.
Proof.
  intros H. destruct (lo_adc_sampler m v _ _ _ _ _ H) as [Hs Hw].
  apply main_go_sampler in Hs. apply main_go_waiting in Hw.
  destruct (take_settling _ _ _ _ _ Hs Hw) as [Hs' Hf].
  exact (main_loop_tail _ _ _ _ _ _ Hs' Hf).
Qed.

Lemma deliver_second m v s t p :
  sampler_at m s s 1 t p ->
  sampler_at (deliver IR v m) s (next_sensor (IR s)) 2
    (fold_bit (above_cutoff v) (index (IR s)) t) p
  /\ mem (deliver IR v m) adc_flag = 0.
Proof.
  intros H. destruct (lo_adc_sampler m v _ _ _ _ _ H) as [Hs Hw].
  apply main_go_sampler in Hs. apply main_go_waiting in Hw.
  destruct (take_second _ _ _ _ _ Hs Hw) as [Hs' Hf].
  exact (main_loop_tail _ _ _ _ _ _ Hs' Hf).
Qed.

Lemma deliver_last m v s s' t p :
  s' <> s ->
  sampler_at m s s' 2 t p ->
  sampler_at (deliver IR v m) s' s' 0
    (fold_bit (above_cutoff v) (index (IR s)) t) p
  /\ mem (deliver IR v m) adc_flag = 0.
Proof.
  intros Hne H. destruct (lo_adc_sampler m v _ _ _ _ _ H) as [Hs Hw].
  apply main_go_sampler in Hs. apply main_go_waiting in Hw.
  destruct (take_last _ _ _ _ _ _ Hne Hs Hw) as [Hs' Hf].
  exact (main_loop_tail _ _ _ _ _ _ Hs' Hf).
Qed.

(** An iteration of [main] with no sample waiting. *)
Lemma main_loop_idle m s s' n t p :
  sampler_at m s s' n t p -> mem m adc_flag = 0 ->
  sampler_at (main_loop IR m) s s' n t
    (if sensor_ptr_eqb s IR_1 && (n =? 0) then t else p).
Proof.
  intros H Hf. unfold main_loop.
  apply main_stop_sampler, main_lost_sampler.
  apply main_go_sampler in H.
  assert (Hf' : mem (main_go m) adc_flag = 0).
  { revert Hf. unfold main_go.
    destruct (negb (mem m go_flag =? mem m go_flag_0)); [|auto].
    destruct (mem m go_flag =? 1); [auto|].
    destruct (mem m go_flag =? 0); auto. }
  revert H Hf'. generalize (main_go m). intros x (Hr & Hn & Hc & Ht & Hp) Hf'.
  unfold main_adc, main_publish, sampler_at. rewrite Hr, Hc.
  destruct (sensor_ptr_eqb s IR_1 && (n =? 0)); simpl; rewrite Hf'; simpl;
    repeat split; auto.
Qed.

(** [IR_meas_array] has one writer in [main]. *)
Lemma main_loop_publishes m :
  mem (main_loop IR m) IR_meas_array
  = if sensor_ptr_eqb (sensor_read m) IR_1 && (mem m adc_reading_number =? 0)
    then mem m IR_temp_array else mem m IR_meas_array.
Proof.
  assert (H0 : sampler_at m (sensor_read m) (sensor_next m)
                 (mem m adc_reading_number) (mem m IR_temp_array)
                 (mem m IR_meas_array)) by (repeat split).
  apply main_go_sampler in H0. unfold main_loop.
  revert H0. generalize (main_go m). intros x (Hr & Hn & Hc & Ht & Hp).
  assert (H1 : mem (main_adc IR (main_publish x)) IR_meas_array
               = mem (main_publish x) IR_meas_array).
  { unfold main_adc.
    destruct (negb (mem (main_publish x) adc_flag =? 0)); [|reflexivity].
    simpl.
    destruct (negb _); [|reflexivity].
    unfold process_measurement, update_sensor.
    repeat match goal with |- context [if ?c then _ else _] => destruct c end;
      reflexivity. }
  assert (H2 : forall y, mem (main_stop (main_lost y)) IR_meas_array
                         = mem y IR_meas_array).
  { intros y.
    assert (Hy : sampler_at y (sensor_read y) (sensor_next y)
                 (mem y adc_reading_number) (mem y IR_temp_array)
                 (mem y IR_meas_array)) by (repeat split).
    apply main_lost_sampler, main_stop_sampler in Hy. apply Hy. }
  rewrite H2, H1. unfold main_publish. rewrite Hr, Hc, <- Ht, <- Hp.
  destruct (_ && _); reflexivity.
Qed.

(** The three samples of one sensor. *)
Lemma visit m s t p a b c :
  next_sensor (IR s) <> s ->
  sampler_at m s s 0 t p ->
  let t' := fold_bit (above_cutoff c) (index (IR s))
              (fold_bit (above_cutoff b) (index (IR s)) t) in
  let p' := if sensor_ptr_eqb s IR_1 then t else p in
  sampler_at (deliver IR a m) s s 1 t p'
  /\ sampler_at (delivers IR [a; b] m) s (next_sensor (IR s)) 2
       (fold_bit (above_cutoff b) (index (IR s)) t) p'
  /\ sampler_at (delivers IR [a; b; c] m)
       (next_sensor (IR s)) (next_sensor (IR s)) 0 t' p'
  /\ mem (delivers IR [a; b; c] m) adc_flag = 0.
Proof.
  intros Hne H t' p'. unfold delivers. cbn [fold_left].
  destruct (deliver_settling m a _ _ _ H) as [H1 _].
  destruct (deliver_second _ b _ _ _ H1) as [H2 _].
  destruct (deliver_last _ c _ _ _ _ Hne H2) as [H3 Hf].
  auto.
Qed.

Lemma delivers_app vs ws m :
  delivers IR (vs ++ ws) m = delivers IR ws (delivers IR vs m).
Proof. unfold delivers. apply fold_left_app. Qed.

(** One round over the ring, three samples a sensor. *)
Lemma round m t p a1 a2 a3 b1 b2 b3 c1 c2 c3 :
  ring IR ->
  sampler_at m IR_1 IR_1 0 t p ->
  let s1 := next_sensor (IR IR_1) in
  let s2 := next_sensor (IR s1) in
  let m' := delivers IR [a1; a2; a3; b1; b2; b3; c1; c2; c3] m in
  sampler_at m' IR_1 IR_1 0
    (fold_bit (above_cutoff c3) (index (IR s2))
      (fold_bit (above_cutoff c2) (index (IR s2))
        (fold_bit (above_cutoff b3) (index (IR s1))
          (fold_bit (above_cutoff b2) (index (IR s1))
            (fold_bit (above_cutoff a3) (index (IR IR_1))
              (fold_bit (above_cutoff a2) (index (IR IR_1)) t))))))
    t
  /\ mem m' adc_flag = 0.
Proof.
  intros (R1 & R2 & R3 & R4) H s1 s2 m'. subst m'.
  fold s1 in R1, R2, R3, R4. fold s2 in R2, R3, R4.
  change [a1; a2; a3; b1; b2; b3; c1; c2; c3]
    with ([a1; a2; a3] ++ [b1; b2; b3] ++ [c1; c2; c3]).
  rewrite !delivers_app.
  destruct (visit m IR_1 t p a1 a2 a3 R1 H) as (_ & _ & H1 & _).
  fold s1 in H1. change (sensor_ptr_eqb IR_1 IR_1) with true in H1.
  cbv iota in H1.
  destruct (visit _ s1 _ _ b1 b2 b3 R3 H1) as (_ & _ & H2 & _).
  fold s2 in H2. rewrite (sensor_ptr_eqb_neq _ _ R1) in H2.
  assert (N2 : next_sensor (IR s2) <> s2).
  { rewrite R4. intros E. apply R2. symmetry. exact E. }
  destruct (visit _ s2 _ _ c1 c2 c3 N2 H2) as (_ & _ & H3 & Hf).
  rewrite R4, (sensor_ptr_eqb_neq _ _ R2) in H3.
  split; assumption.
Qed.

End Sampler.

(** The ring of [main.c] and the bits its sensors own. *)
Lemma sensors_ring : ring sensors.
Proof. cbv. repeat split; discriminate. Qed.

Lemma sensors_own_bits : own_bits sensors.
Proof.
  split.
  - intros p. destruct p; simpl; lia.
  - intros p q. destruct p, q; simpl; intros H; solve [reflexivity | discriminate H].
Qed.

(** C6, as the code has it.  A round over the ring is nine samples, three
    a sensor.  Once the ninth is taken the read cursor is back on [IR_1]
    with the reading counter at 0, and the pattern [main] then swaps into
    [IR_meas_array] has, for each sensor, the bit at the sensor's [index]
    equal to 1 exactly when the third, last sample of that sensor is at or
    above the cutoff 3500.  This holds for every ring through the three
    sensors and every assignment of distinct bits.  While the round lasts
    [IR_meas_array] holds the pattern that was complete when it began, and
    an iteration of [main] writes [IR_meas_array] only with the read cursor
    on [IR_1] and the counter at 0. *)
Theorem published_pattern_is_last_sample
    (IR : sensor_ptr -> IRSensor) (m : machine)
    (a1 a2 a3 b1 b2 b3 c1 c2 c3 : Z) :
  ring IR -> own_bits IR ->
  sensor_read m = IR_1 -> sensor_next m = IR_1 ->
  mem m adc_reading_number = 0 ->
  let s1 := next_sensor (IR IR_1) in
  let s2 := next_sensor (IR s1) in
  let done := delivers IR [a1; a2; a3; b1; b2; b3; c1; c2; c3] m in
  let pattern := mem (main_loop IR done) IR_meas_array in
  (sensor_read done = IR_1 /\ mem done adc_reading_number = 0)
  /\ Z.testbit pattern (index (IR IR_1)) = above_cutoff a3
  /\ Z.testbit pattern (index (IR s1)) = above_cutoff b3
  /\ Z.testbit pattern (index (IR s2)) = above_cutoff c3
  /\ mem done IR_meas_array = mem m IR_temp_array
  /\ (forall x,
        mem (main_loop IR x) IR_meas_array
        = if sensor_ptr_eqb (sensor_read x) IR_1
             && (mem x adc_reading_number =? 0)
          then mem x IR_temp_array else mem x IR_meas_array).
Proof.
  intros HR HB Hr Hn Hc s1 s2 done pattern.
  assert (H0 : sampler_at m IR_1 IR_1 0 (mem m IR_temp_array)
                 (mem m IR_meas_array)) by (repeat split; assumption).
  destruct (round IR m _ _ a1 a2 a3 b1 b2 b3 c1 c2 c3 HR H0) as [H9 Hf].
  fold s1 s2 done in H9, Hf.
  pose proof (main_loop_idle IR done _ _ _ _ _ H9 Hf) as Hp.
  destruct H9 as (D1 & D2 & D3 & D4 & D5).
  destruct Hp as (_ & _ & _ & _ & Hp).
  change (sensor_ptr_eqb IR_1 IR_1 && (0 =? 0)) with true in Hp.
  cbv iota in Hp. fold pattern in Hp.
  destruct HR as (R1 & R2 & R3 & R4). fold s1 s2 in R1, R2, R3, R4.
  destruct HB as [Hrange Hinj].
  assert (E01 : (index (IR IR_1) =? index (IR s1)) = false).
  { apply Z.eqb_neq. intros E. apply Hinj in E. congruence. }
  assert (E02 : (index (IR IR_1) =? index (IR s2)) = false).
  { apply Z.eqb_neq. intros E. apply Hinj in E. congruence. }
  assert (E12 : (index (IR s1) =? index (IR s2)) = false).
  { apply Z.eqb_neq. intros E. apply Hinj in E. congruence. }
  split; [split; assumption|].
  rewrite Hp.
  repeat split.
  - rewrite !fold_bit_testbit, E02, E01, Z.eqb_refl by apply Hrange.
    reflexivity.
  - rewrite !fold_bit_testbit, E12, Z.eqb_refl by apply Hrange.
    reflexivity.
  - rewrite !fold_bit_testbit, Z.eqb_refl by apply Hrange. reflexivity.
  - exact D5.
  - apply main_loop_publishes.
Qed.

Lemma published_pattern_is_last_sample_witness :
  Z.testbit
    (mem (main_loop sensors
            (delivers sensors [0; 0; 4000; 0; 0; 0; 0; 0; 4000] power_on))
       IR_meas_array) 0 = true.
Proof.
  pose proof (published_pattern_is_last_sample sensors power_on
                0 0 4000 0 0 0 0 0 4000 sensors_ring sensors_own_bits
                eq_refl eq_refl eq_refl) as H.
  cbv zeta in H. destruct H as (_ & H & _). exact H.
Defined.

(** C6 fails as stated: the second sample of [IR_1] is above the cutoff,
    every other sample is below, and bit 0 is never published, after none
    of the nine samples; after six samples the read cursor is on [IR_3],
    and only after nine is it back on [IR_1]. *)
Lemma second_sample_is_overwritten :
  above_cutoff 4000 = true
  /\ Forall (fun vs =>
        mem (main_loop sensors (delivers sensors vs power_on)) IR_meas_array = 0)
      [ [0]; [0; 4000]; [0; 4000; 0]; [0; 4000; 0; 0]; [0; 4000; 0; 0; 0];
        [0; 4000; 0; 0; 0; 0]; [0; 4000; 0; 0; 0; 0; 0];
        [0; 4000; 0; 0; 0; 0; 0; 0]; [0; 4000; 0; 0; 0; 0; 0; 0; 0] ]
  /\ sensor_read (delivers sensors [0; 4000; 0; 0; 0; 0] power_on) = IR_3
  /\ sensor_read (delivers sensors [0; 4000; 0; 0; 0; 0; 0; 0; 0] power_on) = IR_1.
Proof.
  split; [reflexivity|]. split; [|split; vm_compute; reflexivity].
  repeat (constructor; [vm_compute; reflexivity|]). constructor.
Qed.

(** ** Dispatch loops *)

Lemma dispatch_inv (P : machine -> Prop) body :
  (forall m m', P m -> body m = Continue m' -> P m') ->
  forall n m m', P m -> dispatch body n m = Returns m' -> P m'.
Proof.
  intros Hstep. induction n as [|k IH]; intros m m' HP; simpl; [discriminate|].
  destruct (body m) as [m1| |] eqn:E; try discriminate.
  - apply IH. eapply Hstep; eassumption.
  - intros H; injection H as <-; exact HP.
Qed.

Lemma dispatch_safe (P : machine -> Prop) body :
  (forall m m', P m -> body m = Continue m' -> P m') ->
  (forall m, P m -> body m <> Faulty) ->
  forall n m, P m -> dispatch body n m <> Undefined.
Proof.
  intros Hstep Hsafe. induction n as [|k IH]; intros m HP; simpl; [discriminate|].
  destruct (body m) as [m1| |] eqn:E; try discriminate.
  - apply IH. eapply Hstep; eassumption.
  - exfalso. exact (Hsafe m HP E).
Qed.

Lemma dispatch_ends (size : machine -> nat) body :
  (forall m m', body m = Continue m' -> (size m' < size m)%nat) ->
  forall n m, (size m < n)%nat -> dispatch body n m <> OutOfFuel.
Proof.
  intros Hdec. induction n as [|k IH]; intros m Hlt; simpl; [lia|].
  destruct (body m) as [m1| |] eqn:E; try discriminate.
  apply IH. specialize (Hdec _ _ E). lia.
Qed.

(** ** The low-priority branches, one by one *)

Lemma lo_control_frame m m' :
  lo_control m = Some m' ->
  (forall x, x <> count_lost -> x <> count_stop -> mem m' x = mem m x)
  /\ (forall b, b <> CCP3IF -> bits m' b = bits m b)
  /\ bits m' CCP3IF = false
  /\ sensor_read m' = sensor_read m /\ sensor_next m' = sensor_next m
  /\ encoder_A m' = encoder_A m /\ encoder_B m' = encoder_B m.
Proof.
  unfold lo_control. cbv zeta.
  destruct (convert_array_to_inputs None None _) as [[r l] [st|]];
    [|discriminate].
  assert (Hb : forall (v : bool) (f : bit -> bool) b,
             b <> CCP3IF -> (if bit_beq b CCP3IF then v else f b) = f b).
  { intros v f b Hb. destruct b; try reflexivity. congruence. }
  destruct (st =? 0).
  - destruct r as [r|]; [|discriminate]. destruct l as [l|]; [|discriminate].
    intros H; injection H as <-. simpl. repeat split; auto.
    intros x H1 H2. destruct x; try reflexivity; congruence.
  - destruct (st =? 1); [|destruct (st =? 2)];
      intros H; injection H as <-; simpl; repeat split; auto;
      intros x H1 H2; destruct x; try reflexivity; congruence.
Qed.

Lemma lo_control_defined m :
  0 <= mem m IR_meas_array <= 7 -> exists m', lo_control m = Some m'.
Proof.
  intros H. unfold lo_control. cbv zeta. simpl.
  assert (C : mem m IR_meas_array = 0 \/ mem m IR_meas_array = 1 \/
              mem m IR_meas_array = 2 \/ mem m IR_meas_array = 3 \/
              mem m IR_meas_array = 4 \/ mem m IR_meas_array = 5 \/
              mem m IR_meas_array = 6 \/ mem m IR_meas_array = 7) by lia.
  destruct C as [E|[E|[E|[E|[E|[E|[E|E]]]]]]]; rewrite E; simpl; eauto.
Qed.

Section Reach.

Variable blink_handler : Z -> Z -> Z * Z.

Lemma lo_display_frame m :
  (forall x, x <> blink_count -> x <> display_value ->
             mem (lo_display blink_handler m) x = mem m x)
  /\ (forall b, b <> CCP6IF -> bits (lo_display blink_handler m) b = bits m b)
  /\ bits (lo_display blink_handler m) CCP6IF = false
  /\ sensor_read (lo_display blink_handler m) = sensor_read m
  /\ sensor_next (lo_display blink_handler m) = sensor_next m
  /\ encoder_A (lo_display blink_handler m) = encoder_A m
  /\ encoder_B (lo_display blink_handler m) = encoder_B m.
Proof.
  unfold lo_display. cbv zeta.
  destruct (blink_handler _ _) as [cnt disp]. simpl. repeat split.
  - intros x H1 H2. destruct x; try reflexivity; congruence.
  - intros b Hb. destruct b; try reflexivity; congruence.
Qed.

Lemma lo_debounce_mem m x :
  x <> button_state -> x <> go_flag -> mem (lo_debounce m) x = mem m x.
Proof.
  intros H1 H2. unfold lo_debounce. cbv zeta.
  destruct (_ && _); simpl; destruct x; try reflexivity; congruence.
Qed.

Lemma LoPri_pass_shrinks m m' :
  LoPri_pass blink_handler m = Continue m' -> (pending m' < pending m)%nat.
Proof.
  unfold LoPri_pass, pending.
  destruct (bits m ADIF) eqn:B1.
  { intros H; injection H as <-. simpl.
    repeat match goal with |- context [if ?c then _ else _] => destruct c end;
      lia. }
  destruct (bits m RBIF) eqn:B2.
  { intros H; injection H as <-. simpl.
    repeat match goal with |- context [if ?c then _ else _] => destruct c end;
      lia. }
  destruct (bits m CCP7IF && bits m CCP7IE) eqn:B3.
  { intros H; injection H as <-.
    assert (Hb : bits (lo_debounce m) ADIF = false
                 /\ bits (lo_debounce m) RBIF = false
                 /\ bits (lo_debounce m) CCP7IF = false
                 /\ bits (lo_debounce m) CCP6IF = bits m CCP6IF
                 /\ bits (lo_debounce m) CCP3IF = bits m CCP3IF).
    { unfold lo_debounce. cbv zeta.
      destruct (negb _ && negb _); simpl; repeat split; assumption. }
    destruct Hb as (-> & -> & -> & -> & ->). simpl.
    repeat match goal with |- context [if ?c then _ else _] => destruct c end;
      lia. }
  destruct (bits m CCP6IF) eqn:B4.
  { intros H; injection H as <-.
    destruct (lo_display_frame m) as (_ & Hb & Hc & _).
    rewrite Hc, !Hb by discriminate. rewrite ?B1, ?B2, ?B3. simpl.
    destruct (bits m CCP3IF); lia. }
  destruct (bits m CCP3IF) eqn:B5; [|discriminate].
  destruct (lo_control m) as [m1|] eqn:E; [|discriminate].
  intros H; injection H as <-.
  destruct (lo_control_frame _ _ E) as (_ & Hb & Hc & _).
  rewrite Hc, !Hb by discriminate. simpl. rewrite ?B1, ?B2, ?B3, ?B4. simpl. lia.
Qed.

Lemma HiPri_pass_shrinks m m' :
  HiPri_pass m = Continue m' -> (hi_pending m' < hi_pending m)%nat.
Proof.
  unfold HiPri_pass, hi_pending.
  destruct (bits m SSP1IF) eqn:B1.
  { intros H; injection H as <-. simpl. destruct (bits m INT0IF); lia. }
  destruct (bits m INT0IF) eqn:B2; [|discriminate].
  intros H; injection H as <-. simpl. rewrite ?B1. simpl. lia.
Qed.

Lemma pending_bound m : (pending m < 6)%nat.
Proof.
  unfold pending.
  repeat match goal with |- context [if ?c then _ else _] => destruct c end; lia.
Qed.

Lemma hi_pending_bound m : (hi_pending m < 3)%nat.
Proof.
  unfold hi_pending.
  repeat match goal with |- context [if ?c then _ else _] => destruct c end; lia.
Qed.

Lemma LoPri_pass_kept m m' :
  LoPri_pass blink_handler m = Continue m' -> kept m m'.
Proof.
  unfold LoPri_pass, kept.
  destruct (bits m ADIF); [intros H; injection H as <-; repeat split|].
  destruct (bits m RBIF); [intros H; injection H as <-; repeat split|].
  destruct (bits m CCP7IF && bits m CCP7IE).
  { intros H; injection H as <-.
    rewrite !lo_debounce_mem by discriminate.
    unfold lo_debounce. cbv zeta. destruct (_ && _); repeat split. }
  destruct (bits m CCP6IF).
  { intros H; injection H as <-.
    destruct (lo_display_frame m) as (Hm & _ & _ & H1 & H2 & _ & H3).
    rewrite !Hm, H1, H2, H3 by discriminate. repeat split. }
  destruct (bits m CCP3IF); [|discriminate].
  destruct (lo_control m) as [m1|] eqn:E; [|discriminate].
  intros H; injection H as <-.
  destruct (lo_control_frame _ _ E) as (Hm & _ & _ & H1 & H2 & _ & H3).
  rewrite !Hm, H1, H2, H3 by discriminate. repeat split.
Qed.

Lemma HiPri_pass_kept m m' : HiPri_pass m = Continue m' -> kept m m'.
Proof.
  unfold HiPri_pass, kept.
  destruct (bits m SSP1IF); [intros H; injection H as <-; repeat split|].
  destruct (bits m INT0IF); [|discriminate].
  intros H; injection H as <-; repeat split.
Qed.

End Reach.

(** ** The patterns never leave 0..7 *)

Lemma fold_bit_range b i t :
  0 <= i <= 2 -> 0 <= t <= 7 -> 0 <= fold_bit b i t <= 7.
Proof.
  intros Hi Ht.
  assert (Ci : i = 0 \/ i = 1 \/ i = 2) by lia.
  assert (Ct : t = 0 \/ t = 1 \/ t = 2 \/ t = 3 \/ t = 4 \/ t = 5 \/ t = 6 \/ t = 7)
    by lia.
  destruct b;
    destruct Ci as [->|[->| ->]];
    destruct Ct as [->|[->|[->|[->|[->|[->|[->| ->]]]]]]];
    vm_compute; split; discriminate.
Qed.

Lemma process_measurement_patterns IR rd m :
  mem (process_measurement IR rd IR_temp_array display_value m) IR_temp_array
  = fold_bit (ADC_CUTOFF <=? rd) (index (IR (sensor_read m))) (mem m IR_temp_array)
  /\ mem (process_measurement IR rd IR_temp_array display_value m) IR_meas_array
     = mem m IR_meas_array.
Proof.
  unfold process_measurement, convert_measurement_to_binary, fold_bit.
  destruct (ADC_CUTOFF <=? rd); split; reflexivity.
Qed.

Lemma update_sensor_mem IR rd m : mem (snd (update_sensor IR rd m)) = mem m.
Proof.
  unfold update_sensor.
  destruct (negb _); [reflexivity|]. destruct (rd =? READINGS_MAX); reflexivity.
Qed.

Lemma main_sampling_patterns IR m :
  (forall p, 0 <= index (IR p) <= 2) ->
  patterns_ok m -> patterns_ok (main_adc IR (main_publish m)).
Proof.
  intros Hi [Ht Hp].
  assert (H1 : patterns_ok (main_publish m)).
  { unfold main_publish, patterns_ok. destruct (_ && _); simpl; auto. }
  revert H1. generalize (main_publish m). clear m Ht Hp. intros m [Ht Hp].
  unfold main_adc, patterns_ok.
  destruct (negb (mem m adc_flag =? 0)); [|auto]. cbv zeta.
  destruct (negb _); [|simpl; auto].
  set (m1 := wr adc_reading_number _ m).
  destruct (process_measurement_patterns IR (mem m1 adc_reading) m1) as [E1 E2].
  set (m2 := process_measurement IR _ _ _ m1) in *.
  pose proof (update_sensor_mem IR (mem m2 adc_reading_number) m2) as E3.
  destruct (update_sensor IR _ m2) as [r m3]. simpl in E3 |- *.
  rewrite E3, E1, E2. subst m1. simpl. split; [|exact Hp].
  apply fold_bit_range; [apply Hi | exact Ht].
Qed.

Lemma main_loop_patterns m : patterns_ok m -> patterns_ok (main_loop sensors m).
Proof.
  intros [Ht Hp]. unfold main_loop.
  assert (H0 : sampler_at m (sensor_read m) (sensor_next m)
                 (mem m adc_reading_number) (mem m IR_temp_array)
                 (mem m IR_meas_array)) by (repeat split).
  apply main_go_sampler in H0. destruct H0 as (_ & _ & _ & E1 & E2).
  assert (H1 : patterns_ok (main_go m)) by (unfold patterns_ok; rewrite E1, E2; auto).
  apply (main_sampling_patterns sensors) in H1;
    [|intros p; destruct p; simpl; lia].
  revert H1. generalize (main_adc sensors (main_publish (main_go m))).
  intros y [Hy1 Hy2].
  assert (Hy : sampler_at y (sensor_read y) (sensor_next y)
                 (mem y adc_reading_number) (mem y IR_temp_array)
                 (mem y IR_meas_array)) by (repeat split).
  apply main_lost_sampler, main_stop_sampler in Hy.
  destruct Hy as (_ & _ & _ & F1 & F2).
  unfold patterns_ok. rewrite F1, F2. auto.
Qed.

Lemma main_loop_encoder_B IR m : encoder_B (main_loop IR m) = encoder_B m.
Proof.
  unfold main_loop.
  assert (Hgo : forall x, encoder_B (main_go x) = encoder_B x).
  { intros x. unfold main_go. destruct (negb _); [|reflexivity].
    destruct (mem x go_flag =? 1); [reflexivity|].
    destruct (mem x go_flag =? 0); reflexivity. }
  assert (Hpub : forall x, encoder_B (main_publish x) = encoder_B x).
  { intros x. unfold main_publish. destruct (_ && _); reflexivity. }
  assert (Hadc : forall x, encoder_B (main_adc IR x) = encoder_B x).
  { intros x. unfold main_adc. destruct (negb _); [|reflexivity]. cbv zeta.
    destruct (negb _); [|reflexivity].
    unfold process_measurement, update_sensor.
    repeat match goal with |- context [if ?c then _ else _] => destruct c end;
      reflexivity. }
  assert (Hlost : forall x, encoder_B (main_lost x) = encoder_B x).
  { intros x. unfold main_lost. destruct (_ >? _); reflexivity. }
  assert (Hstop : forall x, encoder_B (main_stop x) = encoder_B x).
  { intros x. unfold main_stop. destruct (_ >? _); reflexivity. }
  rewrite Hstop, Hlost, Hadc, Hpub, Hgo. reflexivity.
Qed.

Section Invariants.

Variable blink_handler : Z -> Z -> Z * Z.

Lemma LoPriISR_kept m m' : LoPriISR blink_handler m = Returns m' -> kept m m'.
Proof.
  unfold LoPriISR. intros H.
  apply (dispatch_inv (fun x => kept m x) (LoPri_pass blink_handler)) in H.
  - exact H.
  - intros x x' Hx Hp. apply LoPri_pass_kept in Hp.
    unfold kept in *. intuition congruence.
  - repeat split.
Qed.

Lemma HiPriISR_kept m m' : HiPriISR m = Returns m' -> kept m m'.
Proof.
  unfold HiPriISR. intros H.
  apply (dispatch_inv (fun x => kept m x) HiPri_pass) in H.
  - exact H.
  - intros x x' Hx Hp. apply HiPri_pass_kept in Hp.
    unfold kept in *. intuition congruence.
  - repeat split.
Qed.

Lemma fire_patterns e m m' :
  patterns_ok m -> fire sensors blink_handler e m = Returns m' -> patterns_ok m'.
Proof.
  intros HP. destruct e as [r b| | |]; simpl; intros H.
  - injection H as <-. exact HP.
  - apply HiPriISR_kept in H. destruct H as (E1 & E2 & _).
    unfold patterns_ok. rewrite E1, E2. exact HP.
  - apply LoPriISR_kept in H. destruct H as (E1 & E2 & _).
    unfold patterns_ok. rewrite E1, E2. exact HP.
  - injection H as <-. apply main_loop_patterns, HP.
Qed.

Lemma reachable_patterns m :
  reachable sensors blink_handler m -> patterns_ok m.
Proof.
  induction 1 as [r b|e m m' _ IH Hf].
  - unfold patterns_ok. simpl. lia.
  - eapply fire_patterns; eassumption.
Qed.

Lemma reachable_encoder_B IR m :
  reachable IR blink_handler m -> encoder_B m = init_encoder ENC_2A ENC_2B.
Proof.
  induction 1 as [r b|e m m' _ IH Hf]; [reflexivity|].
  rewrite <- IH. destruct e as [r b| | |]; simpl in Hf.
  - injection Hf as <-. reflexivity.
  - apply HiPriISR_kept in Hf. apply Hf.
  - apply LoPriISR_kept in Hf. apply Hf.
  - injection Hf as <-. apply main_loop_encoder_B.
Qed.

Lemma LoPriISR_returns m :
  patterns_ok m -> exists m', LoPriISR blink_handler m = Returns m'.
Proof.
  intros HP.
  destruct (LoPriISR blink_handler m) as [m'| |] eqn:E; [eauto| |]; exfalso.
  - revert E. unfold LoPriISR.
    apply (dispatch_safe patterns_ok (LoPri_pass blink_handler)); [| |exact HP].
    + intros x x' Hx Hp. apply LoPri_pass_kept in Hp.
      destruct Hp as (E1 & E2 & _). unfold patterns_ok. rewrite E1, E2. exact Hx.
    + intros x [_ Hx]. unfold LoPri_pass.
      destruct (lo_control_defined x Hx) as [x' ->].
      repeat match goal with |- context [if ?c then _ else _] => destruct c end;
        discriminate.
  - revert E. unfold LoPriISR.
    apply (dispatch_ends pending (LoPri_pass blink_handler)).
    + apply LoPri_pass_shrinks.
    + apply pending_bound.
Qed.

Lemma HiPriISR_returns m : exists m', HiPriISR m = Returns m'.
Proof.
  destruct (HiPriISR m) as [m'| |] eqn:E; [eauto| |]; exfalso.
  - revert E. unfold HiPriISR.
    apply (dispatch_safe (fun _ => True) HiPri_pass); auto.
    intros x _. unfold HiPri_pass.
    repeat match goal with |- context [if ?c then _ else _] => destruct c end;
      discriminate.
  - revert E. unfold HiPriISR.
    apply (dispatch_ends hi_pending HiPri_pass).
    + apply HiPri_pass_shrinks.
    + apply hi_pending_bound.
Qed.

End Invariants.

Lemma run_reachable IR bh es : forall m m',
  reachable IR bh m -> run IR bh es m = Returns m' -> reachable IR bh m'.
Proof.
  induction es as [|e t IH]; intros m m' Hr; simpl.
  - intros H; injection H as <-. exact Hr.
  - destruct (fire IR bh e m) as [m1| |] eqn:E; try discriminate.
    apply IH. exact (reach_fire IR bh e m m1 Hr E).
Qed.

(** C10.  In every state the system can reach, [IR_temp_array] and
    [IR_meas_array] hold a value in 0..7; hence the classifier returns an
    assigned status, one of 0, 1 and 2, the control period never reads an
    unassigned [status], and every interrupt routine and every iteration
    of [main] returns. *)
Theorem patterns_stay_in_range
    (blink_handler : Z -> Z -> Z * Z) (m : machine) :
  reachable sensors blink_handler m ->
  0 <= mem m IR_temp_array <= 7
  /\ 0 <= mem m IR_meas_array <= 7
  /\ (exists s, status_of (mem m IR_meas_array) = Some s
                /\ (s = 0 \/ s = 1 \/ s = 2))
  /\ (exists m', lo_control m = Some m')
  /\ (forall e, exists m', fire sensors blink_handler e m = Returns m').
Proof.
  intros Hr. pose proof (reachable_patterns _ _ Hr) as [Ht Hp].
  split; [exact Ht|]. split; [exact Hp|]. split; [|split].
  - assert (C : mem m IR_meas_array = 0 \/ mem m IR_meas_array = 1 \/
                mem m IR_meas_array = 2 \/ mem m IR_meas_array = 3 \/
                mem m IR_meas_array = 4 \/ mem m IR_meas_array = 5 \/
                mem m IR_meas_array = 6 \/ mem m IR_meas_array = 7) by lia.
    destruct C as [E|[E|[E|[E|[E|[E|[E|E]]]]]]]; rewrite E; cbv; eauto.
  - apply lo_control_defined, Hp.
  - intros e. destruct e as [r b| | |]; simpl; eauto.
    + apply HiPriISR_returns.
    + apply LoPriISR_returns. split; assumption.
Qed.

Lemma patterns_stay_in_range_witness :
  pattern_of (run sensors still_display high_events power_on) = 7
  /\ 0 <= pattern_of (run sensors still_display high_events power_on) <= 7.
Proof.
  assert (T : pattern_of (run sensors still_display high_events power_on) = 7)
    by (vm_compute; reflexivity).
  split; [exact T|].
  destruct (run sensors still_display high_events power_on) as [m| |] eqn:E;
    try discriminate T.
  cbn [pattern_of].
  apply (patterns_stay_in_range still_display m).
  exact (run_reachable sensors still_display high_events power_on m
           (reach_boot sensors still_display quiet_regs quiet_bits) E).
Defined.

(** ** Classifier *)

Lemma classifier_out_of_range meas dcR dcL :
  meas < 0 \/ 7 < meas -> convert_array_to_inputs dcR dcL meas = (dcR, dcL, None).
Proof.
  intros H. destruct meas as [|p|p]; [lia| |reflexivity].
  destruct p as [[[q|q|]|[q|q|]|]|[[q|q|]|[q|q|]|]|]; try reflexivity; lia.
Qed.

Lemma classifier_status meas dcR dcL :
  snd (convert_array_to_inputs dcR dcL meas) = status_of meas.
Proof.
  unfold status_of.
  destruct (Z_lt_le_dec meas 0) as [Hn|Hn];
    [rewrite !classifier_out_of_range by lia; reflexivity|].
  destruct (Z_lt_le_dec 7 meas) as [Hp|Hp];
    [rewrite !classifier_out_of_range by lia; reflexivity|].
  assert (C : meas = 0 \/ meas = 1 \/ meas = 2 \/ meas = 3 \/
              meas = 4 \/ meas = 5 \/ meas = 6 \/ meas = 7) by lia.
  destruct C as [H|[H|[H|[H|[H|[H|[H|H]]]]]]]; subst meas; reflexivity.
Qed.

Lemma status_partition meas :
  (status_of meas = Some 0
     <-> meas = 1 \/ meas = 2 \/ meas = 3 \/ meas = 4 \/ meas = 6)
  /\ (status_of meas = Some 1 <-> meas = 0 \/ meas = 5)
  /\ (status_of meas = Some 2 <-> meas = 7).
Proof.
  unfold status_of.
  destruct (Z_lt_le_dec meas 0) as [Hn|Hn];
    [rewrite !classifier_out_of_range by lia; cbn;
     intuition (try discriminate; lia)|].
  destruct (Z_lt_le_dec 7 meas) as [Hp|Hp];
    [rewrite !classifier_out_of_range by lia; cbn;
     intuition (try discriminate; lia)|].
  assert (C : meas = 0 \/ meas = 1 \/ meas = 2 \/ meas = 3 \/
              meas = 4 \/ meas = 5 \/ meas = 6 \/ meas = 7) by lia.
  destruct C as [H|[H|[H|[H|[H|[H|[H|H]]]]]]]; subst meas; cbn;
    intuition (try discriminate; try lia; auto).
Qed.

(** C1.  [convert_array_to_inputs] realises the steering table: pattern
    001 gives right duty 50, left duty 0, status normal; 011 gives
    (35, 15), 010 gives (25, 25), 110 gives (15, 35), 100 gives (0, 50),
    all normal; 000 and 101 give status lost and 111 status stop, and in
    these three cases both duty objects keep what they held.  The status
    depends on the pattern alone, and the patterns with status normal,
    lost and stop are exactly {1,2,3,4,6}, {0,5} and {7}. *)
Theorem classifier_table (dcR dcL : option Z) :
    convert_array_to_inputs dcR dcL 1 = (Some 50, Some 0, Some 0)
 /\ convert_array_to_inputs dcR dcL 3 = (Some 35, Some 15, Some 0)
 /\ convert_array_to_inputs dcR dcL 2 = (Some 25, Some 25, Some 0)
 /\ convert_array_to_inputs dcR dcL 6 = (Some 15, Some 35, Some 0)
 /\ convert_array_to_inputs dcR dcL 4 = (Some 0, Some 50, Some 0)
 /\ convert_array_to_inputs dcR dcL 0 = (dcR, dcL, Some 1)
 /\ convert_array_to_inputs dcR dcL 5 = (dcR, dcL, Some 1)
 /\ convert_array_to_inputs dcR dcL 7 = (dcR, dcL, Some 2)
 /\ (forall meas dcR' dcL',
       snd (convert_array_to_inputs dcR dcL meas)
       = snd (convert_array_to_inputs dcR' dcL' meas))
 /\ (forall meas,
       (snd (convert_array_to_inputs dcR dcL meas) = Some 0
          <-> meas = 1 \/ meas = 2 \/ meas = 3 \/ meas = 4 \/ meas = 6)
    /\ (snd (convert_array_to_inputs dcR dcL meas) = Some 1
          <-> meas = 0 \/ meas = 5)
    /\ (snd (convert_array_to_inputs dcR dcL meas) = Some 2
          <-> meas = 7)).
Proof.
  repeat (split; [reflexivity|]). split.
  - intros meas dcR' dcL'. rewrite !classifier_status. reflexivity.
  - intros meas. rewrite !classifier_status. apply status_partition.
Qed.

(** ** Fault counters *)

Lemma lo_control_normal m :
  status_of (mem m IR_meas_array) = Some 0 ->
  exists m' r l, lo_control m = Some m'
    /\ mem m' count_lost = 0 /\ mem m' count_stop = 0
    /\ trace m' = trace m ++ [motors_drive r l]
    /\ convert_array_to_inputs None None (mem m IR_meas_array)
       = (Some r, Some l, Some 0).
Proof.
  intros H. apply status_partition in H.
  unfold lo_control. cbv zeta. simpl.
  destruct H as [E|[E|[E|[E|E]]]]; rewrite E; simpl;
    eexists; eexists; eexists; repeat split.
Qed.

Lemma lo_control_lost m :
  status_of (mem m IR_meas_array) = Some 1 ->
  exists m', lo_control m = Some m'
    /\ mem m' count_lost = to_char (mem m count_lost + 1)
    /\ mem m' count_stop = mem m count_stop
    /\ trace m' = trace m.
Proof.
  intros H. apply status_partition in H.
  unfold lo_control. cbv zeta. simpl.
  destruct H as [E|E]; rewrite E; simpl; eexists; repeat split.
Qed.

Lemma lo_control_stop m :
  status_of (mem m IR_meas_array) = Some 2 ->
  exists m', lo_control m = Some m'
    /\ mem m' count_stop = to_char (mem m count_stop + 1)
    /\ mem m' count_lost = mem m count_lost
    /\ trace m' = trace m.
Proof.
  intros H. apply status_partition in H.
  unfold lo_control. cbv zeta. simpl.
  rewrite H; simpl; eexists; repeat split.
Qed.

Lemma to_char_small z : 0 <= z < 256 -> to_char z = z.
Proof. intros H. unfold to_char. apply Z.mod_small. lia. Qed.

Lemma ticks_lost n : forall m,
  status_of (mem m IR_meas_array) = Some 1 ->
  0 <= mem m count_lost -> mem m count_lost + Z.of_nat n <= 255 ->
  exists m', ticks n m = Some m'
    /\ mem m' count_lost = mem m count_lost + Z.of_nat n
    /\ mem m' count_stop = mem m count_stop.
Proof.
  induction n as [|k IH]; intros m Hs H0 Hb.
  - exists m. simpl. repeat split; lia.
  - destruct (lo_control_lost m Hs) as (m1 & E & E1 & E2 & _).
    pose proof (lo_control_frame _ _ E) as (Hm & _).
    simpl ticks. rewrite E.
    rewrite to_char_small in E1 by lia.
    destruct (IH m1) as (m' & F & F1 & F2).
    + rewrite Hm by discriminate. exact Hs.
    + lia.
    + lia.
    + exists m'. split; [exact F|]. split; lia.
Qed.

Lemma ticks_stop n : forall m,
  status_of (mem m IR_meas_array) = Some 2 ->
  0 <= mem m count_stop -> mem m count_stop + Z.of_nat n <= 255 ->
  exists m', ticks n m = Some m'
    /\ mem m' count_stop = mem m count_stop + Z.of_nat n
    /\ mem m' count_lost = mem m count_lost.
Proof.
  induction n as [|k IH]; intros m Hs H0 Hb.
  - exists m. simpl. repeat split; lia.
  - destruct (lo_control_stop m Hs) as (m1 & E & E1 & E2 & _).
    pose proof (lo_control_frame _ _ E) as (Hm & _).
    simpl ticks. rewrite E.
    rewrite to_char_small in E1 by lia.
    destruct (IH m1) as (m' & F & F1 & F2).
    + rewrite Hm by discriminate. exact Hs.
    + lia.
    + lia.
    + exists m'. split; [exact F|]. split; lia.
Qed.

(** ** Recovery in [main] *)

Lemma gtb_true a b : a > b -> (a >? b) = true.
Proof. intros H. rewrite Z.gtb_ltb. apply Z.ltb_lt. lia. Qed.

Lemma gtb_false a b : a <= b -> (a >? b) = false.
Proof. intros H. rewrite Z.gtb_ltb. apply Z.ltb_ge. lia. Qed.

Lemma main_lost_idle m : mem m count_lost <= 10 -> main_lost m = m.
Proof. intros H. unfold main_lost. rewrite (gtb_false _ _ H). reflexivity. Qed.

Lemma main_stop_idle m : mem m count_stop <= 10 -> main_stop m = m.
Proof. intros H. unfold main_stop. rewrite (gtb_false _ _ H). reflexivity. Qed.

Lemma main_lost_fires m :
  mem m count_lost > 10 ->
  main_lost m
  = wr count_lost 0 (wr go_flag_0 0 (wr go_flag 0
      (flash 10 100 (do_call pause_delivery m))))
  /\ trace (main_lost m) = trace m ++ pause_delivery :: flashes 10 100
  /\ mem (main_lost m) go_flag = 0 /\ mem (main_lost m) go_flag_0 = 0
  /\ mem (main_lost m) count_lost = 0
  /\ (forall x, x <> go_flag -> x <> go_flag_0 -> x <> count_lost ->
                mem (main_lost m) x = mem m x)
  /\ bits (main_lost m) = bits m.
Proof.
  intros H. unfold main_lost. rewrite (gtb_true _ _ H). cbv zeta.
  destruct (flash_frame 10 100 (do_call pause_delivery m))
    as (H1 & _ & H3 & _ & _ & _ & _ & H8).
  split; [reflexivity|].
  split. { rewrite !trace_wr, H8, trace_do_call, <- app_assoc. reflexivity. }
  split; [rewrite !mem_wr; reflexivity|].
  split; [rewrite !mem_wr; reflexivity|].
  split; [rewrite !mem_wr; reflexivity|].
  split. { intros x X1 X2 X3. rewrite !mem_wr, H1, mem_do_call.
           destruct x; try reflexivity; congruence. }
  rewrite !bits_wr, H3, bits_do_call. reflexivity.
Qed.

Lemma main_stop_fires m :
  mem m count_stop > 10 ->
  main_stop m
  = wbit ADIE true (do_call enter_sleep_mode
      (wr count_stop 0 (wr go_flag_0 0 (wr go_flag 0
        (do_call motors_turn_around
          (flash 2 1000 (do_call pause_delivery m)))))))
  /\ trace (main_stop m)
     = trace m ++ pause_delivery :: flashes 2 1000
               ++ [motors_turn_around; enter_sleep_mode]
  /\ mem (main_stop m) go_flag = 0 /\ mem (main_stop m) go_flag_0 = 0
  /\ mem (main_stop m) count_stop = 0
  /\ (forall x, x <> go_flag -> x <> go_flag_0 -> x <> count_stop ->
                mem (main_stop m) x = mem m x)
  /\ bits (main_stop m) ADIE = true
  /\ (forall b, b <> ADIE -> bits (main_stop m) b = bits m b).
Proof.
  intros H. unfold main_stop. rewrite (gtb_true _ _ H). cbv zeta.
  destruct (flash_frame 2 1000 (do_call pause_delivery m))
    as (H1 & _ & H3 & _ & _ & _ & _ & H8).
  split; [reflexivity|].
  split. { rewrite trace_wbit, trace_do_call, !trace_wr, trace_do_call, H8,
             trace_do_call, <- !app_assoc. reflexivity. }
  split; [rewrite mem_wbit, mem_do_call, !mem_wr; reflexivity|].
  split; [rewrite mem_wbit, mem_do_call, !mem_wr; reflexivity|].
  split; [rewrite mem_wbit, mem_do_call, !mem_wr; reflexivity|].
  split. { intros x X1 X2 X3.
           rewrite mem_wbit, mem_do_call, !mem_wr, mem_do_call, H1, mem_do_call.
           destruct x; try reflexivity; congruence. }
  split; [rewrite bits_wbit; reflexivity|].
  intros b Hb.
  rewrite bits_wbit, bits_do_call, !bits_wr, bits_do_call, H3, bits_do_call.
  destruct b; try reflexivity; congruence.
Qed.

(** With no button edge and no sample waiting, an iteration of [main]
    comes down to the two recovery blocks. *)
Lemma main_lost_same m m' : same m m' -> same (main_lost m) (main_lost m').
Proof.
  intros (Hm & Hb & Ht). unfold main_lost. rewrite (Hm count_lost).
  destruct (mem m' count_lost >? 10); [|repeat split; assumption].
  cbv zeta.
  destruct (flash_frame 10 100 (do_call pause_delivery m))
    as (H1 & _ & H3 & _ & _ & _ & _ & H8).
  destruct (flash_frame 10 100 (do_call pause_delivery m'))
    as (H1' & _ & H3' & _ & _ & _ & _ & H8').
  split; [|split].
  - intros x. rewrite !mem_wr, H1, H1', !mem_do_call, Hm. reflexivity.
  - rewrite !bits_wr, H3, H3', !bits_do_call. exact Hb.
  - rewrite !trace_wr, H8, H8', !trace_do_call, Ht. reflexivity.
Qed.

Lemma main_stop_same m m' : same m m' -> same (main_stop m) (main_stop m').
Proof.
  intros (Hm & Hb & Ht). unfold main_stop. rewrite (Hm count_stop).
  destruct (mem m' count_stop >? 10); [|repeat split; assumption].
  cbv zeta.
  destruct (flash_frame 2 1000 (do_call pause_delivery m))
    as (H1 & _ & H3 & _ & _ & _ & _ & H8).
  destruct (flash_frame 2 1000 (do_call pause_delivery m'))
    as (H1' & _ & H3' & _ & _ & _ & _ & H8').
  split; [|split].
  - intros x.
    rewrite !mem_wbit, !mem_do_call, !mem_wr, !mem_do_call, H1, H1',
      !mem_do_call, Hm.
    reflexivity.
  - apply (f_equal (fun f c => if bit_beq c ADIE then true else f c)).
    rewrite !bits_do_call, !bits_wr, !bits_do_call, H3, H3', !bits_do_call.
    exact Hb.
  - rewrite !trace_wbit, !trace_do_call, !trace_wr, !trace_do_call, H8, H8',
      !trace_do_call, Ht.
    reflexivity.
Qed.

Lemma main_loop_calm IR m :
  calm m -> same (main_loop IR m) (main_stop (main_lost m)).
Proof.
  intros (Hg & Hf & Ht). unfold main_loop.
  assert (E1 : main_go m = m).
  { unfold main_go. rewrite Hg, Z.eqb_refl. reflexivity. }
  rewrite E1.
  assert (S1 : same (main_publish m) m).
  { unfold main_publish. destruct (_ && _); [|repeat split].
    repeat split. intros x. cbn [mem wr].
    destruct x; try reflexivity. cbn. exact Ht. }
  assert (E2 : main_adc IR (main_publish m) = main_publish m).
  { unfold main_adc. destruct S1 as (Sm & _). rewrite (Sm adc_flag), Hf.
    reflexivity. }
  rewrite E2. apply main_stop_same, main_lost_same, S1.
Qed.

Lemma lo_control_calm m m' : lo_control m = Some m' -> calm m -> calm m'.
Proof.
  intros E (Hg & Hf & Ht). destruct (lo_control_frame _ _ E) as (Hm & _).
  unfold calm. rewrite !Hm by discriminate. auto.
Qed.

Section Periods.

Variable IR : sensor_ptr -> IRSensor.



Lemma stop_period_below m :
  status_of (mem m IR_meas_array) = Some 2 -> calm m ->
  0 <= mem m count_stop < 10 -> mem m count_lost <= 10 ->
  exists m1, lo_control m = Some m1
    /\ calm (main_loop IR m1)
    /\ mem (main_loop IR m1) IR_meas_array = mem m IR_meas_array
    /\ mem (main_loop IR m1) count_stop = mem m count_stop + 1
    /\ mem (main_loop IR m1) count_lost = mem m count_lost
    /\ mem (main_loop IR m1) go_flag = mem m go_flag
    /\ trace (main_loop IR m1) = trace m.
Proof.
  intros Hs Hc Hl Hp.
  destruct (lo_control_stop m Hs) as (m1 & E & E1 & E2 & E3).
  rewrite to_char_small in E1 by lia.
  pose proof (lo_control_calm _ _ E Hc) as Hc1.
  destruct (lo_control_frame _ _ E) as (Hm & _).
  destruct (main_loop_calm IR m1 Hc1) as (Sm & _ & St).
  rewrite main_lost_idle, main_stop_idle in Sm, St by lia.
  exists m1. split; [exact E|].
  split; [unfold calm; rewrite !Sm; exact Hc1|].
  rewrite !Sm, St, (Hm IR_meas_array), (Hm go_flag) by discriminate.
  repeat split; auto.
Qed.

Lemma stop_period_eleventh m :
  status_of (mem m IR_meas_array) = Some 2 -> calm m ->
  mem m count_stop = 10 -> mem m count_lost <= 10 ->
  exists m1, lo_control m = Some m1
    /\ trace (main_loop IR m1)
       = trace m ++ pause_delivery :: flashes 2 1000
                 ++ [motors_turn_around; enter_sleep_mode]
    /\ mem (main_loop IR m1) go_flag = 0
    /\ mem (main_loop IR m1) go_flag_0 = 0
    /\ mem (main_loop IR m1) count_stop = 0
    /\ mem (main_loop IR m1) count_lost = mem m count_lost
    /\ bits (main_loop IR m1) ADIE = true.
Proof.
  intros Hs Hc Hl Hp.
  destruct (lo_control_stop m Hs) as (m1 & E & E1 & E2 & E3).
  rewrite Hl in E1. change (to_char (10 + 1)) with 11 in E1.
  pose proof (lo_control_calm _ _ E Hc) as Hc1.
  destruct (main_loop_calm IR m1 Hc1) as (Sm & Sb & St).
  rewrite (main_lost_idle m1) in Sm, Sb, St by lia.
  destruct (main_stop_fires m1) as (_ & F1 & F2 & F3 & F4 & F5 & F6 & _); [lia|].
  exists m1. split; [exact E|].
  rewrite !Sm, Sb, St, F1, F2, F3, F4, F5, F6, E2, E3 by discriminate.
  repeat split.
Qed.


Lemma stop_periods_below k : forall m,
  status_of (mem m IR_meas_array) = Some 2 -> calm m ->
  0 <= mem m count_stop -> mem m count_stop + Z.of_nat k <= 10 ->
  mem m count_lost <= 10 ->
  exists mk, control_periods IR k m = Some mk
    /\ calm mk /\ mem mk IR_meas_array = mem m IR_meas_array
    /\ mem mk count_stop = mem m count_stop + Z.of_nat k
    /\ mem mk count_lost = mem m count_lost
    /\ mem mk go_flag = mem m go_flag
    /\ trace mk = trace m.
Proof.
  induction k as [|k IH]; intros m Hs Hc H0 Hb Hp.
  - exists m. simpl. repeat split; try assumption; try apply Hc. lia.
  - destruct (stop_period_below m Hs Hc) as (m1 & E & C1 & C2 & C3 & C4 & C5 & C6);
      [lia | lia |].
    destruct (IH (main_loop IR m1)) as (mk & F & G1 & G2 & G3 & G4 & G5 & G6);
      [rewrite C2; exact Hs | exact C1 | lia | lia | lia |].
    exists mk. simpl control_periods. rewrite E. split; [exact F|].
    split; [exact G1|].
    rewrite G2, G3, G4, G5, G6, C2, C3, C4, C5, C6.
    repeat split; lia.
Qed.

Lemma control_periods_snoc k : forall m mk,
  control_periods IR k m = Some mk ->
  control_periods IR (S k) m
  = match lo_control mk with
    | Some m' => Some (main_loop IR m')
    | None => None
    end.
Proof.
  induction k as [|k IH]; intros m mk.
  - simpl. intros H; injection H as <-. destruct (lo_control m); reflexivity.
  - intros H. change (control_periods IR (S (S k)) m)
      with (match lo_control m with
            | Some m' => control_periods IR (S k) (main_loop IR m')
            | None => None end).
    simpl in H. destruct (lo_control m) as [m1|]; [|discriminate].
    apply IH, H.
Qed.

End Periods.

Lemma main_front_counters IR m x :
  x = count_lost \/ x = count_stop ->
  mem (main_adc IR (main_publish (main_go m))) x = mem m x.
Proof.
  intros Hx.
  assert (Hgo : forall y, mem (main_go y) x = mem y x).
  { intros y. unfold main_go. destruct (negb _); [|reflexivity].
    destruct (mem y go_flag =? 1); [|destruct (mem y go_flag =? 0)];
      rewrite mem_wr; destruct Hx as [-> | ->]; reflexivity. }
  assert (Hpub : forall y, mem (main_publish y) x = mem y x).
  { intros y. unfold main_publish. destruct (_ && _); [|reflexivity].
    rewrite mem_wr. destruct Hx as [-> | ->]; reflexivity. }
  assert (Hadc : forall y, mem (main_adc IR y) x = mem y x).
  { intros y. unfold main_adc. destruct (negb (mem y adc_flag =? 0));
      [|reflexivity]. cbv zeta. destruct (negb _).
    - unfold process_measurement, update_sensor, convert_measurement_to_binary.
      repeat match goal with |- context [if ?c then _ else _] => destruct c end;
        destruct Hx as [-> | ->]; reflexivity.
    - destruct Hx as [-> | ->]; reflexivity. }
  rewrite Hadc, Hpub, Hgo. reflexivity.
Qed.

Lemma main_loop_counters IR m :
  mem (main_loop IR m) count_lost
  = (if mem m count_lost >? 10 then 0 else mem m count_lost)
  /\ mem (main_loop IR m) count_stop
     = (if mem m count_stop >? 10 then 0 else mem m count_stop).
Proof.
  unfold main_loop.
  pose proof (main_front_counters IR m count_lost (or_introl eq_refl)) as FL.
  pose proof (main_front_counters IR m count_stop (or_intror eq_refl)) as FS.
  revert FL FS. generalize (main_adc IR (main_publish (main_go m))).
  intros y FL FS. rewrite <- FL, <- FS.
  assert (LS : mem (main_lost y) count_stop = mem y count_stop).
  { destruct (Z_le_gt_dec (mem y count_lost) 10) as [H|H].
    - rewrite main_lost_idle by exact H. reflexivity.
    - destruct (main_lost_fires y H) as (_ & _ & _ & _ & _ & F & _).
      apply F; discriminate. }
  assert (LL : mem (main_lost y) count_lost
               = if mem y count_lost >? 10 then 0 else mem y count_lost).
  { destruct (Z_le_gt_dec (mem y count_lost) 10) as [H|H].
    - rewrite main_lost_idle, (gtb_false _ _ H) by exact H. reflexivity.
    - destruct (main_lost_fires y H) as (_ & _ & _ & _ & F & _).
      rewrite F, (gtb_true _ _ H). reflexivity. }
  destruct (Z_le_gt_dec (mem (main_lost y) count_stop) 10) as [H|H].
  - rewrite main_stop_idle by exact H. rewrite LS in H |- *.
    rewrite (gtb_false _ _ H). split; [exact LL | reflexivity].
  - destruct (main_stop_fires _ H) as (_ & _ & _ & _ & F & G & _).
    rewrite F, (G count_lost) by discriminate. rewrite LS in H.
    rewrite (gtb_true _ _ H). split; [exact LL | reflexivity].
Qed.

(** C5, as the code has it.  With a pattern in 0..7 a control period does
    exactly one of three things, by the status of the classifier: normal
    drives the motors and sets both [count_lost] and [count_stop] to 0;
    lost adds 1 to [count_lost] (as a [char]) and leaves [count_stop];
    stop adds 1 to [count_stop] and leaves [count_lost].  So at most one
    counter is incremented in a period.  Over [n] control periods of the
    same fault, served one after the other, the counter of that fault
    grows by [n] as long as it does not pass 255.  An iteration of [main]
    leaves a counter of at most 10 as it is and sets a counter above 10
    to 0: this, and the wrap of a [char] after 255, are the two ways a
    counter goes down within a run of periods of the same fault. *)
Theorem control_period_counters (m : machine) :
  0 <= mem m IR_meas_array <= 7 ->
  (exists m', lo_control m = Some m')
  /\ (status_of (mem m IR_meas_array) = Some 0 ->
      exists m' r l, lo_control m = Some m'
        /\ mem m' count_lost = 0 /\ mem m' count_stop = 0
        /\ trace m' = trace m ++ [motors_drive r l])
  /\ (status_of (mem m IR_meas_array) = Some 1 ->
      exists m', lo_control m = Some m'
        /\ mem m' count_lost = to_char (mem m count_lost + 1)
        /\ mem m' count_stop = mem m count_stop
        /\ trace m' = trace m)
  /\ (status_of (mem m IR_meas_array) = Some 2 ->
      exists m', lo_control m = Some m'
        /\ mem m' count_stop = to_char (mem m count_stop + 1)
        /\ mem m' count_lost = mem m count_lost
        /\ trace m' = trace m)
  /\ (forall n,
      status_of (mem m IR_meas_array) = Some 1 ->
      0 <= mem m count_lost -> mem m count_lost + Z.of_nat n <= 255 ->
      exists m', ticks n m = Some m'
        /\ mem m' count_lost = mem m count_lost + Z.of_nat n
        /\ mem m' count_stop = mem m count_stop)
  /\ (forall n,
      status_of (mem m IR_meas_array) = Some 2 ->
      0 <= mem m count_stop -> mem m count_stop + Z.of_nat n <= 255 ->
      exists m', ticks n m = Some m'
        /\ mem m' count_stop = mem m count_stop + Z.of_nat n
        /\ mem m' count_lost = mem m count_lost)
  /\ (forall IR x,
      mem (main_loop IR x) count_lost
      = (if mem x count_lost >? 10 then 0 else mem x count_lost)
      /\ mem (main_loop IR x) count_stop
         = (if mem x count_stop >? 10 then 0 else mem x count_stop)).
Proof.
  intros Hr. split; [apply lo_control_defined, Hr|].
  split.
  { intros H. destruct (lo_control_normal m H) as (m' & r & l & E & A & B & C & _).
    exists m', r, l. auto. }
  split; [apply lo_control_lost|]. split; [apply lo_control_stop|].
  split; [intros n; apply ticks_lost|].
  split; [intros n; apply ticks_stop|].
  intros IR x. apply main_loop_counters.
Qed.

Lemma control_period_counters_witness :
  exists m', ticks 3 power_on = Some m'
    /\ mem m' count_lost = mem power_on count_lost + 3
    /\ mem m' count_stop = mem power_on count_stop.
Proof.
  assert (H : 0 <= mem power_on IR_meas_array <= 7) by (simpl; lia).
  destruct (control_period_counters power_on H) as (_ & _ & _ & _ & Hrun & _).
  apply (Hrun 3%nat); [reflexivity | simpl; lia | simpl; lia].
Defined.

(** C5 fails as stated: within one run of lost periods, all on pattern
    000, [count_lost] goes down twice.  With [main] running between the
    periods it stands at 10 after the tenth and at 0 after the eleventh,
    the recovery having cleared it; with the periods served one after the
    other and no iteration of [main] in between, as while [main] waits in
    a delay, it stands at 255 after 255 of them and at 0 after 256. *)
Lemma fault_counter_drops_within_a_run :
  option_map (fun m => mem m count_lost) (control_periods sensors 10 power_on)
  = Some 10
  /\ option_map (fun m => mem m count_lost) (control_periods sensors 11 power_on)
     = Some 0
  /\ option_map (fun m => mem m count_lost) (ticks 255 power_on) = Some 255
  /\ option_map (fun m => mem m count_lost) (ticks 256 power_on) = Some 0.
Proof. vm_compute. repeat split. Qed.




(** The lost periods that trigger the recovery need not be consecutive:
    after ten lost periods and one stop period, the first lost period of
    the new run finds [count_lost] at 10 and triggers the recovery. *)
Lemma lost_recovery_after_interrupted_run :
  option_map (fun m => (trace m, mem m count_lost, mem m count_stop))
    ten_lost_stop
  = Some ([], 10, 1)
  /\ option_map (fun m => (trace m, mem m count_lost, mem m count_stop))
       ten_lost_stop_lost
     = Some (pause_delivery :: flashes 10 100, 0, 1).
Proof. vm_compute. split; reflexivity. Qed.

(** C3.  From the stop pattern and [count_stop] at 0, with no button edge
    and no sample in between, ten control periods leave the trace alone;
    the eleventh makes [main] call [pause_delivery], flash the display
    twice at 1000 ms on and 1000 ms off, call [motors_turn_around], clear
    [go_flag], [go_flag_0] and [count_stop], call [enter_sleep_mode] and,
    back from it, set [ADIE].  In any state the block does nothing when
    [count_stop] is at most 10. *)
Theorem stop_recovery_on_eleventh_period
    (IR : sensor_ptr -> IRSensor) (m : machine) :
  status_of (mem m IR_meas_array) = Some 2 ->
  mem m go_flag = mem m go_flag_0 -> mem m adc_flag = 0 ->
  mem m IR_temp_array = mem m IR_meas_array ->
  mem m count_stop = 0 -> mem m count_lost <= 10 ->
  (forall k, (k <= 10)%nat ->
     exists mk, control_periods IR k m = Some mk
       /\ mem mk count_stop = Z.of_nat k
       /\ mem mk go_flag = mem m go_flag
       /\ trace mk = trace m)
  /\ (exists m11, control_periods IR 11 m = Some m11
       /\ trace m11 = trace m ++ pause_delivery :: flashes 2 1000
                              ++ [motors_turn_around; enter_sleep_mode]
       /\ mem m11 go_flag = 0 /\ mem m11 go_flag_0 = 0
       /\ mem m11 count_stop = 0
       /\ bits m11 ADIE = true)
  /\ (forall x, mem x count_stop <= 10 -> main_stop x = x)
  /\ (forall x, mem x count_stop > 10 ->
       main_stop x
       = wbit ADIE true (do_call enter_sleep_mode
           (wr count_stop 0 (wr go_flag_0 0 (wr go_flag 0
             (do_call motors_turn_around
               (flash 2 1000 (do_call pause_delivery x)))))))
       /\ trace (main_stop x)
          = trace x ++ pause_delivery :: flashes 2 1000
                    ++ [motors_turn_around; enter_sleep_mode]
       /\ mem (main_stop x) go_flag = 0 /\ mem (main_stop x) go_flag_0 = 0
       /\ mem (main_stop x) count_stop = 0
       /\ bits (main_stop x) ADIE = true).
Proof.
  intros Hs Hg Hf Ht Hl Hp.
  assert (Hc : calm m) by (repeat split; assumption).
  split.
  { intros k Hk.
    destruct (stop_periods_below IR k m Hs Hc) as (mk & E & _ & _ & A & B & C & D);
      try lia.
    exists mk. rewrite A, Hl. repeat split; auto. }
  split.
  { destruct (stop_periods_below IR 10 m Hs Hc) as (mk & E & C1 & C2 & A & B & C & D);
      try lia.
    rewrite (control_periods_snoc IR _ _ _ E).
    destruct (stop_period_eleventh IR mk) as (m1 & E1 & F1 & F2 & F3 & F4 & F5 & F6);
      [rewrite C2; exact Hs | exact C1 | rewrite A, Hl; reflexivity | lia |].
    rewrite E1. eexists. split; [reflexivity|].
    rewrite F1, F2, F3, F4, F6, D. repeat split. }
  split; [exact main_stop_idle|].
  intros x Hx. destruct (main_stop_fires x Hx) as (F0 & F1 & F2 & F3 & F4 & _ & F6 & _).
  auto 10.
Qed.

Lemma stop_recovery_on_eleventh_period_witness :
  exists m11,
    control_periods sensors 11 all_high = Some m11
    /\ trace m11 = trace all_high ++ pause_delivery :: flashes 2 1000
                                  ++ [motors_turn_around; enter_sleep_mode]
    /\ mem m11 go_flag = 0 /\ mem m11 go_flag_0 = 0
    /\ mem m11 count_stop = 0
    /\ bits m11 ADIE = true.
Proof.
  apply (stop_recovery_on_eleventh_period sensors all_high);
    solve [vm_compute; reflexivity | vm_compute; discriminate].
Defined.

(** ** Debounce *)

(** C4, as the code has it.  A raw edge arms the debouncer: [RB0] is
    recorded in [button_state_0], the edge interrupt is disabled and the
    debounce timer enabled.  When the timer fires [RB0] is sampled again,
    and [go_flag] is inverted, once, exactly when both samples are high.
    When the samples differ, and also when both are low, [go_flag] keeps
    its value.  Either way the timer interrupt is disabled and the edge
    interrupt enabled again. *)
Theorem debounce_confirms_press_only (p1 p2 : Z) (m : machine) :
  let armed := hi_button (wreg PORTB p1 m) in
  let after := debounce p1 p2 m in
  (mem armed button_state_0 = bit_of (Z.testbit p1 0)
   /\ bits armed INT0IE = false /\ bits armed INT0IF = false
   /\ bits armed CCP7IE = true /\ bits armed CCP7IF = false
   /\ mem armed go_flag = mem m go_flag)
  /\ mem after go_flag
     = (if Z.testbit p1 0 && Z.testbit p2 0
        then go_button_handler (mem m go_flag) else mem m go_flag)
  /\ go_button_handler (mem m go_flag) <> mem m go_flag
  /\ (Z.testbit p1 0 <> Z.testbit p2 0 -> mem after go_flag = mem m go_flag)
  /\ (Z.testbit p1 0 = false -> mem after go_flag = mem m go_flag)
  /\ (bits after INT0IE = true /\ bits after INT0IF = false
      /\ bits after CCP7IE = false /\ bits after CCP7IF = false).
Proof.
  intros armed after. subst armed after. unfold debounce.
  split; [repeat split|].
  assert (E : mem (lo_debounce (wreg PORTB p2 (hi_button (wreg PORTB p1 m)))) go_flag
              = if Z.testbit p1 0 && Z.testbit p2 0
                then go_button_handler (mem m go_flag) else mem m go_flag).
  { unfold lo_debounce, hi_button, RB0. cbn.
    change (Z.testbit p1 0) with (Z.odd p1).
    change (Z.testbit p2 0) with (Z.odd p2).
    destruct (Z.odd p1), (Z.odd p2); reflexivity. }
  split; [exact E|]. split.
  { unfold go_button_handler. destruct (Z.eqb_spec (mem m go_flag) 0); lia. }
  split.
  { rewrite E. destruct (Z.testbit p1 0), (Z.testbit p2 0); simpl; congruence. }
  split.
  { rewrite E. intros ->. reflexivity. }
  unfold lo_debounce. cbv zeta. destruct (negb _ && negb _); repeat split.
Qed.

(** C4 fails as stated: after a confirmed press has set the latch, a
    release whose two samples agree (both low) leaves the latch set. *)
Lemma confirmed_release_is_ignored :
  mem (debounce 1 1 power_on) go_flag = 1
  /\ RB0 (wreg PORTB 0 power_on) = 0
  /\ mem (debounce 0 0 (debounce 1 1 power_on)) button_state_0 = 0
  /\ mem (debounce 0 0 (debounce 1 1 power_on)) button_state = 0
  /\ mem (debounce 0 0 (debounce 1 1 power_on)) go_flag = 1.
Proof. vm_compute. repeat split. Qed.

(** ** Ring advance *)

(** C7, as the code has it.  [update_sensor]: when the next cursor differs
    from the read cursor, the read cursor adopts it and 0 is returned;
    otherwise, when the reading is [READINGS_MAX], the next cursor moves to
    the ring successor and the reading is returned unchanged; otherwise
    nothing changes.  Consequently, from a sensor just adopted, the first
    sample moves no cursor, the second moves the next cursor, and the third
    moves the read cursor and resets the counter: three samples arrive for
    a sensor before the read cursor leaves it, the second and the third
    being folded into its bit. *)
Theorem update_sensor_three_samples
    (IR : sensor_ptr -> IRSensor) (m : machine) (s : sensor_ptr) (a b c : Z) :
  next_sensor (IR s) <> s ->
  sensor_read m = s -> sensor_next m = s -> mem m adc_reading_number = 0 ->
  (forall x rd, sensor_next x <> sensor_read x ->
     update_sensor IR rd x = (0, set_sensor_read (sensor_next x) x))
  /\ (forall x, sensor_next x = sensor_read x ->
     update_sensor IR READINGS_MAX x
     = (READINGS_MAX, set_sensor_next (next_sensor (IR (sensor_read x))) x))
  /\ (forall x rd, sensor_next x = sensor_read x -> rd <> READINGS_MAX ->
     update_sensor IR rd x = (rd, x))
  /\ (sensor_read (deliver IR a m) = s /\ sensor_next (deliver IR a m) = s
      /\ mem (deliver IR a m) adc_reading_number = 1)
  /\ (sensor_read (delivers IR [a; b] m) = s
      /\ sensor_next (delivers IR [a; b] m) = next_sensor (IR s)
      /\ mem (delivers IR [a; b] m) adc_reading_number = 2)
  /\ (sensor_read (delivers IR [a; b; c] m) = next_sensor (IR s)
      /\ sensor_next (delivers IR [a; b; c] m) = next_sensor (IR s)
      /\ mem (delivers IR [a; b; c] m) adc_reading_number = 0)
  /\ mem (delivers IR [a; b; c] m) IR_temp_array
     = fold_bit (above_cutoff c) (index (IR s))
         (fold_bit (above_cutoff b) (index (IR s)) (mem m IR_temp_array)).
Proof.
  intros Hne Hr Hn Hc.
  split.
  { intros x rd Hx. unfold update_sensor.
    rewrite (sensor_ptr_eqb_neq _ _ Hx). reflexivity. }
  split.
  { intros x Hx. unfold update_sensor. rewrite Hx, sensor_ptr_eqb_refl.
    reflexivity. }
  split.
  { intros x rd Hx Hrd. unfold update_sensor. rewrite Hx, sensor_ptr_eqb_refl.
    simpl. replace (rd =? READINGS_MAX) with false; [reflexivity|].
    symmetry. apply Z.eqb_neq. exact Hrd. }
  assert (H0 : sampler_at m s s 0 (mem m IR_temp_array) (mem m IR_meas_array))
    by (repeat split; assumption).
  destruct (visit IR m s _ _ a b c Hne H0) as (V1 & V2 & V3 & _).
  destruct V1 as (A1 & A2 & A3 & _), V2 as (B1 & B2 & B3 & _),
           V3 as (C1 & C2 & C3 & C4 & _).
  repeat split; assumption.
Qed.

Lemma update_sensor_three_samples_witness :
  sensor_read (delivers sensors [0; 0; 0] power_on) = next_sensor (sensors IR_1).
Proof.
  apply (update_sensor_three_samples sensors power_on IR_1 0 0 0);
    solve [reflexivity | discriminate].
Defined.

(** C7 fails as stated: after two samples the read cursor is still on
    [IR_1], and the third sample is folded into the bit of [IR_1] before
    the read cursor moves to [IR_2]. *)
Lemma third_sample_before_cursor_moves :
  sensor_read (delivers sensors [0; 0] power_on) = IR_1
  /\ mem (delivers sensors [0; 0] power_on) adc_reading_number = 2
  /\ mem (delivers sensors [0; 0] power_on) IR_temp_array = 0
  /\ mem (delivers sensors [0; 0; 4000] power_on) IR_temp_array = 1
  /\ sensor_read (delivers sensors [0; 0; 4000] power_on) = IR_2.
Proof. vm_compute. repeat split. Qed.

(** ** Encoder decoder *)

Lemma nibble_cases h :
  exists k, Z.land h 15 = k /\
  (k = 0 \/ k = 1 \/ k = 2 \/ k = 3 \/ k = 4 \/ k = 5 \/ k = 6 \/ k = 7 \/
   k = 8 \/ k = 9 \/ k = 10 \/ k = 11 \/ k = 12 \/ k = 13 \/ k = 14 \/ k = 15).
Proof.
  exists (h mod 16). split.
  - change 15 with (Z.ones 4). rewrite Z.land_ones by lia. reflexivity.
  - pose proof (Z.mod_pos_bound h 16 ltac:(lia)) as Hb. lia.
Qed.

Lemma swap_history_negates h :
  lookup (Z.land (swap_history h) 15) = - lookup (Z.land h 15).
Proof.
  unfold swap_history.
  destruct (nibble_cases h) as
    [k [Hk [H|[H|[H|[H|[H|[H|[H|[H|[H|[H|[H|[H|[H|[H|[H|H]]]]]]]]]]]]]]]]];
    cbv zeta; rewrite Hk, H; reflexivity.
Qed.

Lemma net_delta_app hs hs' : net_delta (hs ++ hs') = net_delta hs + net_delta hs'.
Proof. induction hs as [|h t IH]; simpl; [reflexivity | rewrite IH; lia]. Qed.

Lemma net_delta_reverse hs : net_delta (reverse_motion hs) = - net_delta hs.
Proof.
  unfold reverse_motion. induction hs as [|h t IH]; simpl; [reflexivity|].
  rewrite net_delta_app, IH. simpl. rewrite swap_history_negates. lia.
Qed.

Lemma shifted_pins r p :
  Z.lor (to_char (Z.shiftl r 2)) (Z.land (Z.shiftr (Z.land p 240) 4) 3)
  = (4 * r) mod 256 + (p / 16) mod 4.
Proof.
  unfold to_char.
  assert (Hlow : Z.land (Z.shiftr (Z.land p 240) 4) 3 = (p / 16) mod 4).
  { rewrite Z.shiftr_land. change (Z.shiftr 240 4) with 15.
    rewrite <- Z.land_assoc. change (Z.land 15 3) with (Z.ones 2).
    rewrite Z.land_ones by lia. rewrite Z.shiftr_div_pow2 by lia. reflexivity. }
  rewrite Hlow, Z.shiftl_mul_pow2 by lia.
  change (2 ^ 2) with 4. replace (r * 4) with (4 * r) by lia.
  change 256 with (4 * 64). rewrite Zmult_mod_distr_l.
  pose proof (Z.mod_pos_bound (p / 16) 4 ltac:(lia)) as Hb.
  set (a := r mod 64) in *. set (b := (p / 16) mod 4) in *.
  rewrite <- Z.lxor_lor, <- Z.add_nocarry_lxor; try reflexivity.
  all: apply Z.bits_inj'; intros n Hn; rewrite Z.land_spec, Z.bits_0;
    destruct (Z_lt_le_dec n 2) as [Hlt|Hge].
  all: try (replace (4 * a) with (a * 2 ^ 2) by lia;
            rewrite Z.mul_pow2_bits_low by lia; reflexivity).
  all: replace (Z.testbit b n) with false; [apply andb_false_r|];
    symmetry; destruct (Z.eq_dec b 0) as [->|Hnz]; [apply Z.bits_0|];
    apply Z.bits_above_log2; [lia|];
    apply Z.lt_le_trans with 2; [|lia]; apply Z.log2_lt_pow2; lia.
Qed.

Lemma turns_frame ports : forall m, encoder_B (turns ports m) = encoder_B m.
Proof.
  induction ports as [|p t IH]; intros m; simpl; [reflexivity|].
  unfold turns in IH. rewrite IH. reflexivity.
Qed.

(** C8 fails as stated: the histories 0001, 0111, 1110, 1000 add up to -4,
    which is neither 0 nor positive; [update_encoders] fed the pin pairs
    01, 11, 10, 00 sees these four histories and counts down to -4. *)
Lemma forward_cycle_counts_down :
  net_delta [1; 7; 14; 8] = -4
  /\ ~ (0 <= net_delta [1; 7; 14; 8])
  /\ map (fun m => Z.land (reading (encoder_A m)) 15)
       [turns [16] power_on; turns [16; 48] power_on;
        turns [16; 48; 32] power_on; turns [16; 48; 32; 0] power_on]
     = [1; 7; 14; 8]
  /\ count (encoder_A (turns [16; 48; 32; 0] power_on)) = -4.
Proof. vm_compute. repeat split; try reflexivity. intros H; apply H; reflexivity. Qed.

(** C8, as the code has it.  The table gives 0 for every history in which
    no pin or both pins change, 1 or -1 for every history in which one pin
    changes, and the opposite value when the old and the new pin pair are
    exchanged; so a motion run backwards adds up to the opposite number of
    ticks.  The histories 0001, 0111, 1110, 1000 add up to -4 and their
    reversal to 4. *)
Theorem encoder_table_signed :
  (forall a b c d : bool,
      let h := history (pins a b) (pins c d) in
      (xorb a c = xorb b d -> lookup h = 0)
      /\ (xorb a c <> xorb b d -> lookup h = 1 \/ lookup h = -1)
      /\ lookup (history (pins c d) (pins a b)) = - lookup h)
  /\ (forall hs, net_delta (reverse_motion hs) = - net_delta hs)
  /\ net_delta [1; 7; 14; 8] = -4
  /\ reverse_motion [1; 7; 14; 8] = [2; 11; 13; 4]
  /\ net_delta (reverse_motion [1; 7; 14; 8]) = 4.
Proof.
  split; [|split; [exact net_delta_reverse | repeat split; reflexivity]].
  intros a b c d. destruct a, b, c, d; cbv; repeat split;
    solve [ reflexivity | discriminate | congruence | auto ].
Qed.

Lemma shifted_nibble r p :
  Z.land (Z.lor (to_char (Z.shiftl r 2))
                (Z.land (Z.shiftr (Z.land p 240) 4) 3)) 15
  = 4 * (r mod 4) + pin_pair p.
Proof.
  rewrite shifted_pins. change 15 with (Z.ones 4).
  rewrite Z.land_ones by lia. change (2 ^ 4) with 16. unfold pin_pair.
  pose proof (Z.mod_pos_bound (p / 16) 4 ltac:(lia)) as Hb.
  set (q := (p / 16) mod 4) in *. clearbody q.
  Z.div_mod_to_equations. lia.
Qed.

Lemma turns_frame_all ports : forall m,
  mem (turns ports m) = mem m /\ bits (turns ports m) = bits m
  /\ sensor_read (turns ports m) = sensor_read m
  /\ sensor_next (turns ports m) = sensor_next m
  /\ trace (turns ports m) = trace m
  /\ encoder_B (turns ports m) = encoder_B m.
Proof.
  induction ports as [|p t IH]; intros m; [repeat split|].
  change (turns (p :: t) m) with (turns t (turn p m)).
  destruct (IH (turn p m)) as (H1 & H2 & H3 & H4 & H5 & H6).
  rewrite H1, H2, H3, H4, H5, H6. repeat split.
Qed.

(** C9.  [update_encoders] modifies the state of the first wheel's encoder
    and nothing else: every global, every register and bit, both cursors,
    the trace and [encoder_B] are as before, and so are the two pins of
    [encoder_A].  It shifts the pin pair found in bits 5 and 4 of [PORTB]
    into the reading of [encoder_A], so that the low four bits of the
    reading are the pair recorded before followed by the new pair, and
    adds the table entry at these four bits to the count of [encoder_A].
    The pin-change branch of [LoPriISR] adds only the clearing of [RBIF].
    However many pin changes are served, [encoder_B] never changes. *)
Theorem update_encoders_frame (m : machine) :
  (mem (update_encoders m) = mem m /\ regs (update_encoders m) = regs m
   /\ bits (update_encoders m) = bits m
   /\ sensor_read (update_encoders m) = sensor_read m
   /\ sensor_next (update_encoders m) = sensor_next m
   /\ trace (update_encoders m) = trace m
   /\ encoder_B (update_encoders m) = encoder_B m)
  /\ (pin_a (encoder_A (update_encoders m)) = pin_a (encoder_A m)
      /\ pin_b (encoder_A (update_encoders m)) = pin_b (encoder_A m))
  /\ reading (encoder_A (update_encoders m))
     = (4 * reading (encoder_A m)) mod 256 + (regs m PORTB / 16) mod 4
  /\ Z.land (reading (encoder_A (update_encoders m))) 15
     = 4 * (reading (encoder_A m) mod 4) + pin_pair (regs m PORTB)
  /\ count (encoder_A (update_encoders m))
     = to_short (count (encoder_A m)
                 + lookup (Z.land (reading (encoder_A (update_encoders m))) 15))
  /\ (mem (lo_encoder m) = mem m /\ regs (lo_encoder m) = regs m
      /\ (forall b, bits (lo_encoder m) b
                    = if bit_beq b RBIF then false else bits m b)
      /\ sensor_read (lo_encoder m) = sensor_read m
      /\ sensor_next (lo_encoder m) = sensor_next m
      /\ trace (lo_encoder m) = trace m
      /\ encoder_A (lo_encoder m) = encoder_A (update_encoders m)
      /\ encoder_B (lo_encoder m) = encoder_B m)
  /\ (forall ports,
       mem (turns ports m) = mem m /\ bits (turns ports m) = bits m
       /\ sensor_read (turns ports m) = sensor_read m
       /\ sensor_next (turns ports m) = sensor_next m
       /\ trace (turns ports m) = trace m
       /\ encoder_B (turns ports m) = encoder_B m).
Proof.
  split; [repeat split|]. split; [repeat split|].
  split; [apply shifted_pins|].
  split; [apply shifted_nibble|].
  split; [reflexivity|].
  split; [repeat split|].
  intros ports. apply turns_frame_all.
Qed.

(** * More properties of the code *)

(** ** More on the classifier *)

Lemma pattern_cases meas :
  0 <= meas <= 7 ->
  meas = 0 \/ meas = 1 \/ meas = 2 \/ meas = 3 \/
  meas = 4 \/ meas = 5 \/ meas = 6 \/ meas = 7.
Proof. lia. Qed.

(** X11.  Whenever the classifier reports status normal it has assigned
    both duties, each within 0..50, and the two add up to 50. *)
Theorem normal_duties_share_fifty (dcR dcL : option Z) (meas : Z) :
  snd (convert_array_to_inputs dcR dcL meas) = Some 0 ->
  exists r l,
    convert_array_to_inputs dcR dcL meas = (Some r, Some l, Some 0)
    /\ 0 <= r <= 50 /\ 0 <= l <= 50 /\ r + l = 50.
Proof.
  rewrite classifier_status. intros H. apply status_partition in H.
  destruct H as [E|[E|[E|[E|E]]]]; subst meas; cbn;
    eexists; eexists; (split; [reflexivity|lia]).
Qed.

Lemma normal_duties_share_fifty_witness :
  exists r l,
    convert_array_to_inputs None None 3 = (Some r, Some l, Some 0)
    /\ 0 <= r <= 50 /\ 0 <= l <= 50 /\ r + l = 50.
Proof. apply normal_duties_share_fifty. reflexivity. Defined.

(** X12.  The steering table is symmetric: for a pattern in 0..7, the
    pattern with the two outer sensor bits exchanged gives the same status
    with the right and the left duty exchanged. *)
Theorem mirrored_pattern_swaps_duties (dcR dcL : option Z) (meas : Z) :
  0 <= meas <= 7 ->
  convert_array_to_inputs dcL dcR (mirror meas)
  = (let '(r, l, s) := convert_array_to_inputs dcR dcL meas in (l, r, s)).
Proof.
  intros H.
  destruct (pattern_cases meas H) as [E|[E|[E|[E|[E|[E|[E|E]]]]]]];
    subst meas; reflexivity.
Qed.

Lemma mirrored_pattern_swaps_duties_witness :
  convert_array_to_inputs None None (mirror 3)
  = (let '(r, l, s) := convert_array_to_inputs None None 3 in (l, r, s)).
Proof. apply mirrored_pattern_swaps_duties. lia. Defined.

(** ** More on the encoder *)

Lemma lookup_bound i : -1 <= lookup i <= 1.
Proof.
  unfold lookup. destruct (Z.to_nat i) as [|n]; [simpl; lia|].
  do 16 (destruct n as [|n]; [simpl; lia|]).
  simpl. destruct n; lia.
Qed.

Lemma to_short_small z : -32768 <= z <= 32767 -> to_short z = z.
Proof. intros H. unfold to_short. rewrite Z.mod_small by lia. lia. Qed.

(** X16.  Away from the ends of its range the count of [encoder_A] moves
    by at most one tick per call of [update_encoders], and not at all when
    the pin pair of the first wheel is the one already recorded, as when
    the interrupt came from another pin of the port. *)
Theorem encoder_counts_one_tick_at_most (m : machine) :
  -32768 < count (encoder_A m) < 32767 ->
  let m' := update_encoders m in
  -1 <= count (encoder_A m') - count (encoder_A m) <= 1
  /\ (pin_pair (regs m PORTB) = reading (encoder_A m) mod 4 ->
      count (encoder_A m') = count (encoder_A m)).
Proof.
  intros Hc m'. subst m'. unfold update_encoders. cbn [encoder_A set_encoder_A].
  unfold shift_in. cbn [count reading].
  pose proof (lookup_bound
    (Z.land (Z.lor (to_char (Z.shiftl (reading (encoder_A m)) 2))
                   (Z.land (Z.shiftr (Z.land (regs m PORTB) 240) 4) 3)) 15)) as Hb.
  split.
  - rewrite to_short_small by lia. lia.
  - intros Hp. rewrite shifted_nibble, Hp.
    pose proof (Z.mod_pos_bound (reading (encoder_A m)) 4 ltac:(lia)) as Hq.
    set (q := reading (encoder_A m) mod 4) in *.
    assert (C : q = 0 \/ q = 1 \/ q = 2 \/ q = 3) by lia.
    destruct C as [->|[->|[->| ->]]]; cbn [Z.mul Z.add Pos.mul Pos.add lookup];
      change (lookup _) with 0; rewrite Z.add_0_r; apply to_short_small; lia.
Qed.

Lemma encoder_counts_one_tick_at_most_witness :
  -1 <= count (encoder_A (update_encoders (wreg PORTB 16 power_on)))
        - count (encoder_A (wreg PORTB 16 power_on)) <= 1.
Proof.
  apply (encoder_counts_one_tick_at_most (wreg PORTB 16 power_on)).
  simpl. lia.
Defined.

(** X17.  After two calls of [update_encoders] the index into the table
    is made of the two pin pairs just seen, the older in bits 3..2: pairs
    seen earlier have no influence on the tick that is added. *)
Theorem encoder_history_is_last_two_pairs (p1 p2 : Z) (m : machine) :
  Z.land (reading (encoder_A (turns [p1; p2] m))) 15
  = 4 * pin_pair p1 + pin_pair p2
  /\ count (encoder_A (turns [p1; p2] m))
     = to_short (count (encoder_A (turn p1 m))
                 + lookup (4 * pin_pair p1 + pin_pair p2)).
Proof.
  assert (E : Z.land (reading (encoder_A (turns [p1; p2] m))) 15
              = 4 * pin_pair p1 + pin_pair p2).
  { unfold turns, turn, update_encoders. cbn [fold_left encoder_A set_encoder_A regs wreg reg_beq].
    unfold shift_in at 1. cbn [reading]. rewrite shifted_nibble.
    unfold shift_in. cbn [reading]. rewrite shifted_pins.
    fold (pin_pair p1).
    pose proof (Z.mod_pos_bound (p1 / 16) 4 ltac:(lia)) as Hb. fold (pin_pair p1) in Hb.
    set (q := pin_pair p1) in *. clearbody q.
    f_equal. f_equal. Z.div_mod_to_equations. lia. }
  split; [exact E|].
  rewrite <- E. reflexivity.
Qed.

(** ** Rearming the timers *)

Lemma bytes_add_no_carry period hi lo :
  0 <= period < 65536 -> 0 <= hi < 256 -> 0 <= lo < 256 ->
  word (to_char (hi + to_char (Z.land (Z.shiftr period 8) 255)))
       (to_char (lo + to_char (Z.land period 255)))
  = rearm period hi lo.
Proof.
  intros Hp Hh Hl. unfold rearm, word, to_char.
  change 255 with (Z.ones 8). rewrite !Z.land_ones, Z.shiftr_div_pow2 by lia.
  change (2 ^ 8) with 256. rewrite !Z.mod_mod by lia.
  pose proof (Z.div_mod period 256 ltac:(lia)) as Hd.
  pose proof (Z.mod_pos_bound period 256 ltac:(lia)) as Hb.
  assert (Hq : 0 <= period / 256 < 256).
  { split; [apply Z.div_pos; lia | apply Z.div_lt_upper_bound; lia]. }
  set (ph := period / 256) in *. set (pl := period mod 256) in *.
  clearbody ph pl. subst period.
  rewrite (Z.mod_small ph 256) by lia.
  assert (A : forall s c, 0 <= s < 512 -> 0 <= c < 256 ->
              256 * (s mod 256) + c = (256 * s + c) mod 65536).
  { intros s c Hs Hc. destruct (Z_lt_le_dec s 256) as [S|S].
    - rewrite !Z.mod_small by lia. reflexivity.
    - replace (s mod 256) with (s - 256).
      + replace ((256 * s + c) mod 65536) with (256 * s + c - 65536); [lia|].
        apply Z.mod_unique with 1; lia.
      + apply Z.mod_unique with 1; lia. }
  destruct (Z.ltb_spec (lo + pl) 256) as [C|C].
  - rewrite (Z.mod_small (lo + pl)) by lia.
    rewrite A by lia. f_equal. lia.
  - replace ((lo + pl) mod 256) with (lo + pl - 256)
      by (apply Z.mod_unique with 1; lia).
    rewrite A by lia. f_equal. lia.
Qed.

Lemma lo_control_regs m m' :
  lo_control m = Some m' ->
  regs m' CCPR3L = to_char (regs m CCPR3L + to_char (Z.land CONTROL 255))
  /\ regs m' CCPR3H
     = to_char (regs m CCPR3H + to_char (Z.land (Z.shiftr CONTROL 8) 255))
  /\ (forall r, r <> CCPR3L -> r <> CCPR3H -> regs m' r = regs m r).
Proof.
  unfold lo_control. cbv zeta.
  destruct (convert_array_to_inputs None None _) as [[r l] [st|]];
    [|discriminate].
  assert (F : forall x : reg, x <> CCPR3L -> x <> CCPR3H ->
     regs (wreg CCPR3H
       (to_char (regs (wreg CCPR3L (to_char (regs m CCPR3L
                   + to_char (Z.land CONTROL 255))) m) CCPR3H
                 + to_char (Z.land (Z.shiftr CONTROL 8) 255)))
       (wreg CCPR3L (to_char (regs m CCPR3L + to_char (Z.land CONTROL 255))) m)) x
     = regs m x).
  { intros x H1 H2. destruct x; try reflexivity; congruence. }
  destruct (st =? 0).
  - destruct r as [r|]; [|discriminate]. destruct l as [l|]; [|discriminate].
    intros H; injection H as <-. repeat split. exact F.
  - destruct (st =? 1); [|destruct (st =? 2)];
      intros H; injection H as <-; repeat split; exact F.
Qed.

(** X14.  The control and the display period are added to their compare
    registers byte by byte, with no carry from the low into the high
    byte: the 16-bit compare value advances by the period (50000, 25000)
    when the low byte does not overflow and by 256 less when it does. *)
Theorem periodic_rearm_drops_carry
    (blink_handler : Z -> Z -> Z * Z) (m : machine) :
  0 <= regs m CCPR3L < 256 -> 0 <= regs m CCPR3H < 256 ->
  0 <= regs m CCPR6L < 256 -> 0 <= regs m CCPR6H < 256 ->
  (forall m', lo_control m = Some m' ->
     word (regs m' CCPR3H) (regs m' CCPR3L)
     = (word (regs m CCPR3H) (regs m CCPR3L) + CONTROL
        - (if regs m CCPR3L <? 176 then 0 else 256)) mod 65536)
  /\ word (regs (lo_display blink_handler m) CCPR6H)
          (regs (lo_display blink_handler m) CCPR6L)
     = (word (regs m CCPR6H) (regs m CCPR6L) + DISPLAY
        - (if regs m CCPR6L <? 88 then 0 else 256)) mod 65536.
Proof.
  intros H3l H3h H6l H6h. split.
  - intros m' E. destruct (lo_control_regs _ _ E) as (-> & -> & _).
    rewrite bytes_add_no_carry by (unfold CONTROL; lia).
    unfold rearm. change (CONTROL mod 256) with 80.
    destruct (Z.ltb_spec (regs m CCPR3L + 80) 256),
             (Z.ltb_spec (regs m CCPR3L) 176); try lia; reflexivity.
  - assert (E : regs (lo_display blink_handler m) CCPR6L
                = to_char (regs m CCPR6L + to_char (Z.land DISPLAY 255))
              /\ regs (lo_display blink_handler m) CCPR6H
                = to_char (regs m CCPR6H
                           + to_char (Z.land (Z.shiftr DISPLAY 8) 255))).
    { unfold lo_display. cbv zeta. destruct (blink_handler _ _) as [c d].
      split; reflexivity. }
    destruct E as [-> ->].
    rewrite bytes_add_no_carry by (unfold DISPLAY; lia).
    unfold rearm. change (DISPLAY mod 256) with 168.
    destruct (Z.ltb_spec (regs m CCPR6L + 168) 256),
             (Z.ltb_spec (regs m CCPR6L) 88); try lia; reflexivity.
Qed.

Lemma periodic_rearm_drops_carry_witness :
  word (regs (lo_display (fun c d => (c, d)) (wreg CCPR6L 100 power_on)) CCPR6H)
       (regs (lo_display (fun c d => (c, d)) (wreg CCPR6L 100 power_on)) CCPR6L)
  = (word (regs (wreg CCPR6L 100 power_on) CCPR6H)
          (regs (wreg CCPR6L 100 power_on) CCPR6L) + DISPLAY
     - (if regs (wreg CCPR6L 100 power_on) CCPR6L <? 88 then 0 else 256))
    mod 65536.
Proof.
  apply (periodic_rearm_drops_carry (fun c d => (c, d))
           (wreg CCPR6L 100 power_on));
    cbv; (split; [discriminate | reflexivity]).
Defined.

(** X15.  The debounce compare value is Timer1 plus the debounce period,
    added byte by byte: it is 10000 counts ahead of the timer when the low
    byte of the timer is below 240, and 256 counts less otherwise. *)
Theorem debounce_arming_drops_carry (m : machine) :
  0 <= regs m TMR1L < 256 -> 0 <= regs m TMR1H < 256 ->
  word (regs (hi_button m) CCPR7H) (regs (hi_button m) CCPR7L)
  = (word (regs m TMR1H) (regs m TMR1L) + DEBOUNCE
     - (if regs m TMR1L <? 240 then 0 else 256)) mod 65536.
Proof.
  intros Hl Hh.
  assert (E : regs (hi_button m) CCPR7L
              = to_char (regs m TMR1L + to_char (Z.land DEBOUNCE 255))
            /\ regs (hi_button m) CCPR7H
              = to_char (regs m TMR1H
                         + to_char (Z.land (Z.shiftr DEBOUNCE 8) 255)))
    by (split; reflexivity).
  destruct E as [-> ->].
  rewrite bytes_add_no_carry by (unfold DEBOUNCE; lia).
  unfold rearm. change (DEBOUNCE mod 256) with 16.
  destruct (Z.ltb_spec (regs m TMR1L + 16) 256),
           (Z.ltb_spec (regs m TMR1L) 240); try lia; reflexivity.
Qed.

Lemma debounce_arming_drops_carry_witness :
  word (regs (hi_button (wreg TMR1L 250 power_on)) CCPR7H)
       (regs (hi_button (wreg TMR1L 250 power_on)) CCPR7L)
  = (word (regs (wreg TMR1L 250 power_on) TMR1H)
          (regs (wreg TMR1L 250 power_on) TMR1L) + DEBOUNCE
     - (if regs (wreg TMR1L 250 power_on) TMR1L <? 240 then 0 else 256))
    mod 65536.
Proof.
  apply (debounce_arming_drops_carry (wreg TMR1L 250 power_on));
    cbv; (split; [discriminate | reflexivity]).
Defined.

(** ** The display mirror of [process_measurement] *)

(** X4.  [process_measurement] writes one bit of each byte: the bit of the
    pattern at the [index] of the sensor under the read cursor and the bit
    of the display byte at its [led] both become "reading at or above the
    cutoff"; every other bit of the two bytes and every other global keep
    their value, and both bytes stay within a [char]. *)
Theorem process_measurement_one_bit_each
    (IR : sensor_ptr -> IRSensor) (rd : Z) (m : machine) (j : Z) :
  0 <= index (IR (sensor_read m)) <= 7 ->
  0 <= led (IR (sensor_read m)) <= 7 ->
  0 <= j <= 7 ->
  let m' := process_measurement IR rd IR_temp_array display_value m in
  Z.testbit (mem m' IR_temp_array) j
  = (if j =? index (IR (sensor_read m)) then ADC_CUTOFF <=? rd
     else Z.testbit (mem m IR_temp_array) j)
  /\ Z.testbit (mem m' display_value) j
     = (if j =? led (IR (sensor_read m)) then ADC_CUTOFF <=? rd
        else Z.testbit (mem m display_value) j)
  /\ (forall x, x <> IR_temp_array -> x <> display_value -> mem m' x = mem m x)
  /\ 0 <= mem m' IR_temp_array < 256 /\ 0 <= mem m' display_value < 256.
Proof.
  intros Hi Hl Hj m'.
  assert (E : mem m' IR_temp_array
              = fold_bit (ADC_CUTOFF <=? rd) (index (IR (sensor_read m)))
                  (mem m IR_temp_array)
            /\ mem m' display_value
              = fold_bit (ADC_CUTOFF <=? rd) (led (IR (sensor_read m)))
                  (mem m display_value)
            /\ (forall x, x <> IR_temp_array -> x <> display_value ->
                          mem m' x = mem m x)).
  { subst m'. unfold process_measurement, convert_measurement_to_binary, fold_bit.
    destruct (ADC_CUTOFF <=? rd); (split; [reflexivity|]); (split; [reflexivity|]);
      intros x H1 H2; destruct x; try reflexivity; congruence. }
  destruct E as (E1 & E2 & E3). rewrite E1, E2, !fold_bit_testbit by assumption.
  repeat split; try reflexivity; try exact E3;
    unfold fold_bit, to_char;
    destruct (ADC_CUTOFF <=? rd); apply Z.mod_pos_bound; lia.
Qed.

Lemma process_measurement_one_bit_each_witness :
  Z.testbit
    (mem (process_measurement sensors 4000 IR_temp_array display_value power_on)
       display_value) 6
  = (if 6 =? led (sensors (sensor_read power_on)) then ADC_CUTOFF <=? 4000
     else Z.testbit (mem power_on display_value) 6).
Proof.
  apply (process_measurement_one_bit_each sensors 4000 power_on 6);
    cbv; (split; discriminate).
Defined.

(** ** The go block of [main] *)

(** X1.  The go block of [main] acts on an edge of the latch and on nothing
    else: it calls [execute_delivery] when [go_flag] has become 1,
    [pause_delivery] when it has become 0, nothing when [go_flag] equals
    [go_flag_0]; afterwards [go_flag_0] equals [go_flag], no other global
    has changed, and the block run again makes no further call. *)
Theorem main_go_serves_an_edge_once (m : machine) :
  trace (main_go m) = trace m ++ go_calls (mem m go_flag) (mem m go_flag_0)
  /\ mem (main_go m) go_flag_0 = mem m go_flag
  /\ (forall x, x <> go_flag_0 -> mem (main_go m) x = mem m x)
  /\ bits (main_go m) = bits m
  /\ trace (main_go (main_go m)) = trace (main_go m).
Proof.
  assert (A : trace (main_go m)
              = trace m ++ go_calls (mem m go_flag) (mem m go_flag_0)
            /\ mem (main_go m) go_flag_0 = mem m go_flag
            /\ (forall x, x <> go_flag_0 -> mem (main_go m) x = mem m x)
            /\ bits (main_go m) = bits m).
  { unfold main_go, go_calls.
    destruct (Z.eqb_spec (mem m go_flag) (mem m go_flag_0)) as [E|E]; simpl.
    - rewrite app_nil_r. repeat split. symmetry. exact E.
    - destruct (mem m go_flag =? 1); [|destruct (mem m go_flag =? 0)];
        simpl; rewrite ?app_nil_r; repeat split;
        intros x Hx; destruct x; try reflexivity; congruence. }
  destruct A as (A1 & A2 & A3 & A4).
  repeat split; try assumption.
  unfold main_go at 1.
  rewrite A2, (A3 go_flag) by discriminate. rewrite Z.eqb_refl. reflexivity.
Qed.

(** X2.  Either recovery leaves the latch without an edge: once the lost or
    the stop recovery has run, [go_flag] and [go_flag_0] are both 0, and
    the go block has no call to make and changes nothing.  The control
    period does not test the latch: it leaves it at 0, and on a normal
    pattern it still calls [motors_drive]. *)
Theorem recovery_leaves_no_edge (m : machine) :
  (mem m count_lost > 10 ->
     go_calls (mem (main_lost m) go_flag) (mem (main_lost m) go_flag_0) = []
     /\ main_go (main_lost m) = main_lost m
     /\ (forall m', lo_control (main_lost m) = Some m' ->
           mem m' go_flag = 0 /\ mem m' go_flag_0 = 0)
     /\ (status_of (mem m IR_meas_array) = Some 0 ->
         exists m' r l, lo_control (main_lost m) = Some m'
           /\ trace m' = trace (main_lost m) ++ [motors_drive r l]))
  /\ (mem m count_stop > 10 ->
     go_calls (mem (main_stop m) go_flag) (mem (main_stop m) go_flag_0) = []
     /\ main_go (main_stop m) = main_stop m
     /\ (forall m', lo_control (main_stop m) = Some m' ->
           mem m' go_flag = 0 /\ mem m' go_flag_0 = 0)
     /\ (status_of (mem m IR_meas_array) = Some 0 ->
         exists m' r l, lo_control (main_stop m) = Some m'
           /\ trace m' = trace (main_stop m) ++ [motors_drive r l])).
Proof.
  split; intros H.
  - destruct (main_lost_fires m H) as (_ & _ & F2 & F3 & _ & F5 & _).
    split; [unfold go_calls; rewrite F2, F3; reflexivity|].
    split; [unfold main_go; rewrite F2, F3; reflexivity|].
    split.
    + intros m' E. destruct (lo_control_frame _ _ E) as (Hm & _).
      rewrite !Hm by discriminate. auto.
    + intros Hs. rewrite <- (F5 IR_meas_array) in Hs by discriminate.
      destruct (lo_control_normal _ Hs) as (m' & r & l & E & _ & _ & T & _).
      exists m', r, l. auto.
  - destruct (main_stop_fires m H) as (_ & _ & F2 & F3 & _ & F5 & _).
    split; [unfold go_calls; rewrite F2, F3; reflexivity|].
    split; [unfold main_go; rewrite F2, F3; reflexivity|].
    split.
    + intros m' E. destruct (lo_control_frame _ _ E) as (Hm & _).
      rewrite !Hm by discriminate. auto.
    + intros Hs. rewrite <- (F5 IR_meas_array) in Hs by discriminate.
      destruct (lo_control_normal _ Hs) as (m' & r & l & E & _ & _ & T & _).
      exists m', r, l. auto.
Qed.

(** ** Taking a sample in [main] *)

(** X3.  [main] takes a waiting sample once: after the sample block
    [adc_flag] is 0 whatever it was; with no sample waiting the block
    changes nothing; with one waiting it sets [GO] to start the next
    conversion; run a second time it does nothing more; and it never
    writes [adc_reading]. *)
Theorem main_adc_takes_a_sample_once (IR : sensor_ptr -> IRSensor) (m : machine) :
  mem (main_adc IR m) adc_flag = 0
  /\ (mem m adc_flag = 0 -> main_adc IR m = m)
  /\ (mem m adc_flag <> 0 -> bits (main_adc IR m) GO = true)
  /\ main_adc IR (main_adc IR m) = main_adc IR m
  /\ mem (main_adc IR m) adc_reading = mem m adc_reading.
Proof.
  assert (A : mem (main_adc IR m) adc_flag = 0).
  { unfold main_adc. destruct (Z.eqb_spec (mem m adc_flag) 0) as [E|E]; simpl;
      [exact E | reflexivity]. }
  split; [exact A|]. split; [|split; [|split]].
  - intros E. unfold main_adc. rewrite E. reflexivity.
  - intros E. unfold main_adc.
    replace (mem m adc_flag =? 0) with false
      by (symmetry; apply Z.eqb_neq; exact E).
    reflexivity.
  - unfold main_adc at 1. rewrite A. reflexivity.
  - unfold main_adc. destruct (negb (mem m adc_flag =? 0)); [|reflexivity].
    cbv zeta. rewrite mem_wbit, mem_wr. cbn [var_beq].
    destruct (negb _); [|reflexivity].
    unfold process_measurement, update_sensor.
    repeat match goal with |- context [if ?c then _ else _] => destruct c end;
      reflexivity.
Qed.

(** ** [HiPriISR] *)

(** X8.  [HiPriISR] always returns, and what it does is fixed by the two
    flags on entry: the display transfer is served first when [SSP1IF] is
    set, then the button edge when [INT0IF] is set, each once. *)
Theorem HiPriISR_serves_display_then_button (m : machine) :
  HiPriISR m
  = Returns (let m1 := if bits m SSP1IF then hi_spi m else m in
             if bits m INT0IF then hi_button m1 else m1).
Proof.
  unfold HiPriISR, dispatch, HiPri_pass.
  destruct (bits m SSP1IF) eqn:B1.
  - cbn [bits hi_spi wbit do_call bit_beq].
    destruct (bits m INT0IF) eqn:B2; [|reflexivity].
    cbn [bits hi_button wbit wreg wr bit_beq]. cbv zeta.
    cbn [bits hi_button wbit wreg wr bit_beq do_call]. reflexivity.
  - destruct (bits m INT0IF) eqn:B2; [|reflexivity].
    cbn [bits hi_button wbit wreg wr bit_beq]. cbv zeta.
    cbn [bits hi_button wbit wreg wr bit_beq]. rewrite B1. reflexivity.
Qed.

(** ** [LoPriISR] *)

Section Chain.

Variable bh : Z -> Z -> Z * Z.

Lemma lo_debounce_bits m :
  bits (lo_debounce m) ADIF = bits m ADIF
  /\ bits (lo_debounce m) RBIF = bits m RBIF
  /\ bits (lo_debounce m) CCP7IF = false
  /\ bits (lo_debounce m) CCP7IE = false
  /\ bits (lo_debounce m) CCP6IF = bits m CCP6IF
  /\ bits (lo_debounce m) CCP3IF = bits m CCP3IF.
Proof.
  unfold lo_debounce. cbv zeta. destruct (negb _ && negb _); repeat split.
Qed.

Lemma chain_control n m0 m :
  bits m ADIF = false -> bits m RBIF = false ->
  bits m CCP7IF && bits m CCP7IE = false -> bits m CCP6IF = false ->
  bits m CCP3IF = bits m0 CCP3IF ->
  dispatch (LoPri_pass bh) (S (S n)) m = serve_control m0 m.
Proof.
  intros B1 B2 B3 B4 B5. unfold serve_control. rewrite <- B5.
  cbn [dispatch]. unfold LoPri_pass at 1. rewrite B1, B2, B3, B4.
  destruct (bits m CCP3IF); [|reflexivity].
  destruct (lo_control m) as [m'|] eqn:E; [|reflexivity].
  destruct (lo_control_frame _ _ E) as (_ & Hb & Hc & _).
  destruct n; unfold LoPri_pass;
    rewrite Hc, !Hb, B1, B2, B3, B4 by discriminate; reflexivity.
Qed.

Lemma chain_display n m0 m :
  bits m ADIF = false -> bits m RBIF = false ->
  bits m CCP7IF && bits m CCP7IE = false ->
  bits m CCP6IF = bits m0 CCP6IF -> bits m CCP3IF = bits m0 CCP3IF ->
  dispatch (LoPri_pass bh) (S (S (S n))) m = serve_display bh m0 m.
Proof.
  intros B1 B2 B3 B4 B5. unfold serve_display. rewrite <- B4.
  destruct (bits m CCP6IF) eqn:B6.
  - change (dispatch (LoPri_pass bh) (S (S (S n))) m)
      with (match LoPri_pass bh m with
            | Continue m' => dispatch (LoPri_pass bh) (S (S n)) m'
            | Break => Returns m
            | Faulty => Undefined
            end).
    unfold LoPri_pass at 1. rewrite B1, B2, B3, B6.
    destruct (lo_display_frame bh m) as (_ & Hb & Hc & _).
    apply chain_control; rewrite ?Hc, ?Hb by discriminate; auto.
  - rewrite chain_control with (m0 := m0); auto.
Qed.

Lemma chain_debounce n m0 m :
  bits m ADIF = false -> bits m RBIF = false ->
  bits m CCP7IF = bits m0 CCP7IF -> bits m CCP7IE = bits m0 CCP7IE ->
  bits m CCP6IF = bits m0 CCP6IF -> bits m CCP3IF = bits m0 CCP3IF ->
  dispatch (LoPri_pass bh) (S (S (S (S n)))) m = serve_debounce bh m0 m.
Proof.
  intros B1 B2 B3 B3' B4 B5. unfold serve_debounce. rewrite <- B3, <- B3'.
  destruct (bits m CCP7IF && bits m CCP7IE) eqn:B7.
  - change (dispatch (LoPri_pass bh) (S (S (S (S n)))) m)
      with (match LoPri_pass bh m with
            | Continue m' => dispatch (LoPri_pass bh) (S (S (S n))) m'
            | Break => Returns m
            | Faulty => Undefined
            end).
    unfold LoPri_pass at 1. rewrite B1, B2, B7.
    destruct (lo_debounce_bits m) as (H1 & H2 & H3 & H4 & H5 & H6).
    apply chain_display; rewrite ?H1, ?H2, ?H3, ?H4, ?H5, ?H6; auto.
  - rewrite chain_display with (m0 := m0); auto.
Qed.

Lemma chain_encoder n m0 m :
  bits m ADIF = false -> bits m RBIF = bits m0 RBIF ->
  bits m CCP7IF = bits m0 CCP7IF -> bits m CCP7IE = bits m0 CCP7IE ->
  bits m CCP6IF = bits m0 CCP6IF -> bits m CCP3IF = bits m0 CCP3IF ->
  dispatch (LoPri_pass bh) (S (S (S (S (S n))))) m = serve_encoder bh m0 m.
Proof.
  intros B1 B2 B3 B3' B4 B5. unfold serve_encoder. rewrite <- B2.
  destruct (bits m RBIF) eqn:B6.
  - change (dispatch (LoPri_pass bh) (S (S (S (S (S n))))) m)
      with (match LoPri_pass bh m with
            | Continue m' => dispatch (LoPri_pass bh) (S (S (S (S n)))) m'
            | Break => Returns m
            | Faulty => Undefined
            end).
    unfold LoPri_pass at 1. rewrite B1, B6.
    apply chain_debounce; auto.
  - rewrite chain_debounce with (m0 := m0); auto.
Qed.

End Chain.

(** X9.  [LoPriISR] serves every source that is pending on entry exactly
    once and in the order of its chain: conversion, encoder, debounce
    (when both its flag and its enable are set), display, control period;
    no branch raises the flag of another.  The only way not to return a
    state is a control period on an unassigned status. *)
Theorem LoPriISR_serves_each_source_once (bh : Z -> Z -> Z * Z) (m : machine) :
  LoPriISR bh m = serve_low bh m.
Proof.
  unfold LoPriISR, serve_low.
  destruct (bits m ADIF) eqn:B1.
  - change (dispatch (LoPri_pass bh) 6 m)
      with (match LoPri_pass bh m with
            | Continue m' => dispatch (LoPri_pass bh) 5 m'
            | Break => Returns m
            | Faulty => Undefined
            end).
    unfold LoPri_pass at 1. rewrite B1.
    apply chain_encoder; reflexivity.
  - rewrite chain_encoder with (m0 := m); auto.
Qed.

(** X10.  When [LoPriISR] returns, no low-priority source is pending any
    more, and it has written neither pattern, neither cursor, nor the
    reading counter, nor [go_flag_0]. *)
Theorem LoPriISR_returns_drained (bh : Z -> Z -> Z * Z) (m m' : machine) :
  LoPriISR bh m = Returns m' ->
  pending m' = 0%nat
  /\ mem m' IR_temp_array = mem m IR_temp_array
  /\ mem m' IR_meas_array = mem m IR_meas_array
  /\ sensor_read m' = sensor_read m /\ sensor_next m' = sensor_next m
  /\ mem m' adc_reading_number = mem m adc_reading_number
  /\ mem m' go_flag_0 = mem m go_flag_0.
Proof.
  intros H.
  assert (Hbreak : forall n x x', dispatch (LoPri_pass bh) n x = Returns x' ->
                                  LoPri_pass bh x' = Break).
  { induction n as [|k IH]; intros x x'; simpl; [discriminate|].
    destruct (LoPri_pass bh x) as [x1| |] eqn:E; try discriminate.
    - apply IH.
    - intros R; injection R as <-. exact E. }
  pose proof (Hbreak _ _ _ H) as Hb.
  pose proof (LoPriISR_kept bh _ _ H) as (K1 & K2 & K3 & K4 & K5 & _).
  split.
  { revert Hb. unfold LoPri_pass, pending.
    destruct (bits m' ADIF); [discriminate|].
    destruct (bits m' RBIF); [discriminate|].
    destruct (bits m' CCP7IF && bits m' CCP7IE); [discriminate|].
    destruct (bits m' CCP6IF); [discriminate|].
    destruct (bits m' CCP3IF); [|reflexivity].
    destruct (lo_control m'); discriminate. }
  repeat split; try assumption.
  revert H. unfold LoPriISR.
  apply (dispatch_inv (fun x => mem x go_flag_0 = mem m go_flag_0)
           (LoPri_pass bh)); [|reflexivity].
  intros x x' Hx. unfold LoPri_pass.
  destruct (bits x ADIF); [intros R; injection R as <-; exact Hx|].
  destruct (bits x RBIF); [intros R; injection R as <-; exact Hx|].
  destruct (bits x CCP7IF && bits x CCP7IE).
  { intros R; injection R as <-. rewrite lo_debounce_mem by discriminate.
    exact Hx. }
  destruct (bits x CCP6IF).
  { intros R; injection R as <-.
    destruct (lo_display_frame bh x) as (Hm & _).
    rewrite Hm by discriminate. exact Hx. }
  destruct (bits x CCP3IF); [|discriminate].
  destruct (lo_control x) as [x1|] eqn:E; [|discriminate].
  intros R; injection R as <-.
  destruct (lo_control_frame _ _ E) as (Hm & _).
  rewrite Hm by discriminate. exact Hx.
Qed.

Lemma LoPriISR_returns_drained_witness :
  pending (lo_adc (wbit ADIF true power_on)) = 0%nat.
Proof.
  apply (LoPriISR_returns_drained (fun c d => (c, d)) (wbit ADIF true power_on)).
  reflexivity.
Defined.

(** ** The phases of the sampler *)

Lemma main_go_mem m x : x <> go_flag_0 -> mem (main_go m) x = mem m x.
Proof.
  intros Hx. unfold main_go. destruct (negb _); [|reflexivity].
  destruct (mem m go_flag =? 1); [|destruct (mem m go_flag =? 0)];
    rewrite mem_wr; destruct x; try reflexivity; congruence.
Qed.

Lemma in_phase_same IR m m' :
  sensor_read m' = sensor_read m -> sensor_next m' = sensor_next m ->
  mem m' adc_reading_number = mem m adc_reading_number ->
  mem m' adc_flag = mem m adc_flag ->
  in_phase IR m -> in_phase IR m'.
Proof. unfold in_phase. intros -> -> -> ->. auto. Qed.

Section Phases.

Variable IR : sensor_ptr -> IRSensor.
Hypothesis no_self_loop : forall s, next_sensor (IR s) <> s.

Lemma main_sampling_in_phase m :
  in_phase IR m -> in_phase IR (main_adc IR (main_publish m)).
Proof.
  intros [Hf Hph].
  assert (H0 : sampler_at m (sensor_read m) (sensor_next m)
                 (mem m adc_reading_number) (mem m IR_temp_array)
                 (mem m IR_meas_array)) by (repeat split).
  destruct Hf as [Hf|Hf].
  - assert (E : main_adc IR (main_publish m) = main_publish m).
    { unfold main_adc.
      replace (mem (main_publish m) adc_flag) with 0; [reflexivity|].
      unfold main_publish. destruct (_ && _); rewrite ?mem_wr; auto. }
    rewrite E. apply (in_phase_same IR m); try (split; [auto|exact Hph]);
      unfold main_publish; destruct (_ && _); reflexivity.
  - assert (Hw : sample_waiting m (mem m adc_reading)) by (split; auto).
    destruct Hph as [[En [Ec|Ec]]|[En Ec]]; rewrite En, Ec in H0.
    + destruct (take_settling IR _ _ _ _ _ H0 Hw) as [(A & B & C & _) F].
      split; [auto|]. left. rewrite A, B, C. auto.
    + destruct (take_second IR _ _ _ _ _ H0 Hw) as [(A & B & C & _) F].
      split; [auto|]. right. rewrite A, B, C. auto.
    + destruct (take_last IR _ _ _ _ _ _ (no_self_loop _) H0 Hw)
        as [(A & B & C & _) F].
      split; [auto|]. left. rewrite A, B, C. auto.
Qed.

Lemma main_loop_in_phase m : in_phase IR m -> in_phase IR (main_loop IR m).
Proof.
  intros H. unfold main_loop.
  assert (H1 : in_phase IR (main_go m)).
  { assert (S0 : sampler_at m (sensor_read m) (sensor_next m)
                 (mem m adc_reading_number) (mem m IR_temp_array)
                 (mem m IR_meas_array)) by (repeat split).
    apply main_go_sampler in S0. destruct S0 as (A & B & C & _).
    apply (in_phase_same IR m); auto. apply main_go_mem. discriminate. }
  apply main_sampling_in_phase in H1.
  revert H1. generalize (main_adc IR (main_publish (main_go m))). intros y Hy.
  assert (S0 : sampler_at y (sensor_read y) (sensor_next y)
                 (mem y adc_reading_number) (mem y IR_temp_array)
                 (mem y IR_meas_array)) by (repeat split).
  apply main_lost_sampler, main_stop_sampler in S0.
  destruct S0 as (A & B & C & _).
  apply (in_phase_same IR y); auto.
  rewrite main_stop_flag, main_lost_flag. reflexivity.
Qed.

Variable bh : Z -> Z -> Z * Z.

Lemma LoPri_pass_in_phase m m' :
  in_phase IR m -> LoPri_pass bh m = Continue m' -> in_phase IR m'.
Proof.
  intros [Hf Hph] Hp.
  pose proof (LoPri_pass_kept bh _ _ Hp) as (_ & _ & K1 & K2 & K3 & _).
  split; [|rewrite K1, K2, K3; exact Hph].
  revert Hp. unfold LoPri_pass.
  destruct (bits m ADIF); [intros R; injection R as <-; right; reflexivity|].
  destruct (bits m RBIF); [intros R; injection R as <-; exact Hf|].
  destruct (bits m CCP7IF && bits m CCP7IE).
  { intros R; injection R as <-. rewrite lo_debounce_mem by discriminate.
    exact Hf. }
  destruct (bits m CCP6IF).
  { intros R; injection R as <-.
    destruct (lo_display_frame bh m) as (Hm & _).
    rewrite Hm by discriminate. exact Hf. }
  destruct (bits m CCP3IF); [|discriminate].
  destruct (lo_control m) as [x1|] eqn:E; [|discriminate].
  intros R; injection R as <-.
  destruct (lo_control_frame _ _ E) as (Hm & _).
  rewrite Hm by discriminate. exact Hf.
Qed.

Lemma HiPri_pass_in_phase m m' :
  in_phase IR m -> HiPri_pass m = Continue m' -> in_phase IR m'.
Proof.
  intros H. unfold HiPri_pass.
  destruct (bits m SSP1IF); [intros R; injection R as <-; exact H|].
  destruct (bits m INT0IF); [|discriminate].
  intros R; injection R as <-; exact H.
Qed.

Lemma reachable_in_phase m : reachable IR bh m -> in_phase IR m.
Proof.
  induction 1 as [r b|e m m' _ IH Hf].
  - split; [left; reflexivity | left; split; [reflexivity | left; reflexivity]].
  - destruct e as [r b| | |]; simpl in Hf.
    + injection Hf as <-. exact IH.
    + revert Hf. unfold HiPriISR.
      apply (dispatch_inv (in_phase IR) HiPri_pass); [|exact IH].
      intros x x'. apply HiPri_pass_in_phase.
    + revert Hf. unfold LoPriISR.
      apply (dispatch_inv (in_phase IR) (LoPri_pass bh)); [|exact IH].
      intros x x'. apply LoPri_pass_in_phase.
    + injection Hf as <-. apply main_loop_in_phase, IH.
Qed.

End Phases.

(** X5.  In every state the system can reach, whatever ring the sensors
    form as long as none is its own successor, the reading counter is 0, 1
    or 2 between two pieces of code, so it never wraps; the sample flag is
    0 or 1; and the next cursor equals the read cursor until the counter
    is 2, when it is the ring successor. *)
Theorem reading_counter_stays_below_three
    (IR : sensor_ptr -> IRSensor) (bh : Z -> Z -> Z * Z) (m : machine) :
  (forall s, next_sensor (IR s) <> s) ->
  reachable IR bh m ->
  0 <= mem m adc_reading_number <= 2
  /\ (mem m adc_flag = 0 \/ mem m adc_flag = 1)
  /\ (mem m adc_reading_number < 2 -> sensor_next m = sensor_read m)
  /\ (mem m adc_reading_number = 2 ->
      sensor_next m = next_sensor (IR (sensor_read m))).
Proof.
  intros Hn Hr. destruct (reachable_in_phase IR Hn bh m Hr) as [Hf Hph].
  split; [|split; [exact Hf|split]].
  - destruct Hph as [[_ [E|E]]|[_ E]]; rewrite E; lia.
  - intros H. destruct Hph as [[E _]|[_ E]]; [exact E|lia].
  - intros H. destruct Hph as [[_ [E|E]]|[E _]]; [lia|lia|exact E].
Qed.

Lemma reading_counter_stays_below_three_witness :
  counter_of (run sensors still_display
                (firstn 6 centred_events) power_on) = 2
  /\ 0 <= counter_of (run sensors still_display
                        (firstn 6 centred_events) power_on) <= 2.
Proof.
  assert (T : counter_of (run sensors still_display
                            (firstn 6 centred_events) power_on) = 2)
    by (vm_compute; reflexivity).
  split; [exact T|].
  destruct (run sensors still_display (firstn 6 centred_events) power_on)
    as [m| |] eqn:E; try discriminate T.
  cbn [counter_of].
  apply (reading_counter_stays_below_three sensors still_display m).
  - intros s. destruct s; discriminate.
  - exact (run_reachable sensors still_display (firstn 6 centred_events)
             power_on m
             (reach_boot sensors still_display quiet_regs quiet_bits) E).
Defined.

(** ** A whole round, end to end *)

Lemma folded_value t a a' b b' c c' :
  0 <= t <= 7 ->
  fold_bit c 2 (fold_bit c' 2 (fold_bit b 1 (fold_bit b' 1
    (fold_bit a 0 (fold_bit a' 0 t)))))
  = bit_of a + 2 * bit_of b + 4 * bit_of c.
Proof.
  intros Ht.
  assert (Ct : t = 0 \/ t = 1 \/ t = 2 \/ t = 3 \/ t = 4 \/ t = 5 \/ t = 6 \/ t = 7)
    by lia.
  destruct Ct as [->|[->|[->|[->|[->|[->|[->| ->]]]]]]];
    destruct a, a', b, b', c, c'; reflexivity.
Qed.

Lemma round_value m a1 a2 a3 b1 b2 b3 c1 c2 c3 :
  sensor_read m = IR_1 -> sensor_next m = IR_1 ->
  mem m adc_reading_number = 0 -> 0 <= mem m IR_temp_array <= 7 ->
  sampler_at
    (main_loop sensors (delivers sensors [a1; a2; a3; b1; b2; b3; c1; c2; c3] m))
    IR_1 IR_1 0
    (bit_of (above_cutoff a3) + 2 * bit_of (above_cutoff b3)
     + 4 * bit_of (above_cutoff c3))
    (bit_of (above_cutoff a3) + 2 * bit_of (above_cutoff b3)
     + 4 * bit_of (above_cutoff c3)).
Proof.
  intros Hr Hn Hc Ht.
  assert (H0 : sampler_at m IR_1 IR_1 0 (mem m IR_temp_array)
                 (mem m IR_meas_array)) by (repeat split; assumption).
  destruct (round sensors m _ _ a1 a2 a3 b1 b2 b3 c1 c2 c3 sensors_ring H0)
    as [H9 Hf].
  cbv zeta in H9, Hf.
  change (index (sensors IR_1)) with 0 in H9.
  change (index (sensors (next_sensor (sensors IR_1)))) with 1 in H9.
  change (index (sensors (next_sensor (sensors (next_sensor (sensors IR_1))))))
    with 2 in H9.
  rewrite folded_value in H9 by exact Ht.
  pose proof (main_loop_idle sensors _ _ _ _ _ _ H9 Hf) as Hp.
  change (sensor_ptr_eqb IR_1 IR_1 && (0 =? 0)) with true in Hp.
  exact Hp.
Qed.

(** X6.  With the sensors of [main.c], nine samples from the start of a
    round publish the number made of the three last samples: bit 0 from
    [IR_1], bit 1 from [IR_2], bit 2 from [IR_3], no other bit; the
    pattern under construction holds the same number and the sampler is
    back where it began. *)
Theorem round_publishes_last_samples
    (m : machine) (a1 a2 a3 b1 b2 b3 c1 c2 c3 : Z) :
  sensor_read m = IR_1 -> sensor_next m = IR_1 ->
  mem m adc_reading_number = 0 -> 0 <= mem m IR_temp_array <= 7 ->
  let after := main_loop sensors
                 (delivers sensors [a1; a2; a3; b1; b2; b3; c1; c2; c3] m) in
  mem after IR_meas_array
  = bit_of (above_cutoff a3) + 2 * bit_of (above_cutoff b3)
    + 4 * bit_of (above_cutoff c3)
  /\ mem after IR_temp_array = mem after IR_meas_array
  /\ sensor_read after = IR_1 /\ sensor_next after = IR_1
  /\ mem after adc_reading_number = 0.
Proof.
  intros Hr Hn Hc Ht after.
  destruct (round_value m a1 a2 a3 b1 b2 b3 c1 c2 c3 Hr Hn Hc Ht)
    as (A & B & C & D & E).
  fold after in A, B, C, D, E. rewrite D, E. auto.
Qed.

Lemma round_publishes_last_samples_witness :
  mem (main_loop sensors
         (delivers sensors [0; 0; 0; 0; 0; 4000; 0; 0; 0] power_on))
    IR_meas_array
  = bit_of (above_cutoff 0) + 2 * bit_of (above_cutoff 4000)
    + 4 * bit_of (above_cutoff 0).
Proof.
  assert (Ht : 0 <= mem power_on IR_temp_array <= 7)
    by (cbv; split; discriminate).
  pose proof (round_publishes_last_samples power_on 0 0 0 0 0 4000 0 0 0
                eq_refl eq_refl eq_refl Ht) as H.
  cbv zeta in H. destruct H as (H & _). exact H.
Defined.

(** X7.  From the samples to the motors: a round in which the last sample
    of the middle sensor alone is at or above the cutoff, followed by a
    control period, calls [motors_drive] with duties 25 and 25 and leaves
    both fault counters at 0. *)
Theorem centred_line_drives_straight
    (m : machine) (a1 a2 a3 b1 b2 b3 c1 c2 c3 : Z) :
  sensor_read m = IR_1 -> sensor_next m = IR_1 ->
  mem m adc_reading_number = 0 -> 0 <= mem m IR_temp_array <= 7 ->
  above_cutoff a3 = false -> above_cutoff b3 = true -> above_cutoff c3 = false ->
  let after := main_loop sensors
                 (delivers sensors [a1; a2; a3; b1; b2; b3; c1; c2; c3] m) in
  exists m', lo_control after = Some m'
    /\ trace m' = trace after ++ [motors_drive 25 25]
    /\ mem m' count_lost = 0 /\ mem m' count_stop = 0.
Proof.
  intros Hr Hn Hc Ht Ha Hb Hcc after.
  destruct (round_value m a1 a2 a3 b1 b2 b3 c1 c2 c3 Hr Hn Hc Ht)
    as (_ & _ & _ & _ & E).
  fold after in E. rewrite Ha, Hb, Hcc in E. change (_ + _ + _) with 2 in E.
  destruct (lo_control_normal after) as (m' & r & l & E1 & E2 & E3 & E4 & E5).
  { rewrite E. reflexivity. }
  rewrite E in E5. cbn in E5. injection E5 as <- <-.
  exists m'. auto.
Qed.

Lemma centred_line_drives_straight_witness :
  exists m',
    lo_control
      (main_loop sensors
         (delivers sensors [0; 0; 0; 0; 0; 4000; 0; 0; 0] power_on))
    = Some m'
    /\ trace m'
       = trace (main_loop sensors
                  (delivers sensors [0; 0; 0; 0; 0; 4000; 0; 0; 0] power_on))
         ++ [motors_drive 25 25]
    /\ mem m' count_lost = 0 /\ mem m' count_stop = 0.
Proof.
  assert (Ht : 0 <= mem power_on IR_temp_array <= 7)
    by (cbv; split; discriminate).
  exact (centred_line_drives_straight power_on 0 0 0 0 0 4000 0 0 0
           eq_refl eq_refl eq_refl Ht eq_refl eq_refl eq_refl).
Defined.

(** ** What [main] writes *)

Lemma regs_wr x v m : regs (wr x v m) = regs m.
Proof. reflexivity. Qed.

Lemma regs_wbit b v m : regs (wbit b v m) = regs m.
Proof. reflexivity. Qed.

Lemma regs_do_call c m : regs (do_call c m) = regs m.
Proof. reflexivity. Qed.

Lemma encoder_A_wr x v m : encoder_A (wr x v m) = encoder_A m.
Proof. reflexivity. Qed.

Lemma encoder_A_wbit b v m : encoder_A (wbit b v m) = encoder_A m.
Proof. reflexivity. Qed.

Lemma encoder_A_do_call c m : encoder_A (do_call c m) = encoder_A m.
Proof. reflexivity. Qed.

Lemma encoder_B_wr x v m : encoder_B (wr x v m) = encoder_B m.
Proof. reflexivity. Qed.

Lemma encoder_B_wbit b v m : encoder_B (wbit b v m) = encoder_B m.
Proof. reflexivity. Qed.

Lemma encoder_B_do_call c m : encoder_B (do_call c m) = encoder_B m.
Proof. reflexivity. Qed.

Lemma main_loop_writes (IR : sensor_ptr -> IRSensor) (m : machine) :
  encoder_A (main_loop IR m) = encoder_A m
  /\ encoder_B (main_loop IR m) = encoder_B m
  /\ regs (main_loop IR m) = regs m
  /\ (forall x, x <> go_flag -> x <> go_flag_0 -> x <> count_lost ->
        x <> count_stop -> x <> adc_flag -> x <> adc_reading_number ->
        x <> IR_temp_array -> x <> IR_meas_array -> x <> display_value ->
        mem (main_loop IR m) x = mem m x)
  /\ (forall b, b <> GO -> b <> ADIE -> bits (main_loop IR m) b = bits m b).
Proof.
  unfold main_loop.
  assert (Hgo : forall y,
    encoder_A (main_go y) = encoder_A y /\ encoder_B (main_go y) = encoder_B y
    /\ regs (main_go y) = regs y /\ bits (main_go y) = bits y).
  { intros y. unfold main_go. destruct (negb _); [|repeat split].
    destruct (mem y go_flag =? 1); [|destruct (mem y go_flag =? 0)];
      repeat split. }
  assert (Hpub : forall y,
    encoder_A (main_publish y) = encoder_A y
    /\ encoder_B (main_publish y) = encoder_B y
    /\ regs (main_publish y) = regs y /\ bits (main_publish y) = bits y
    /\ (forall x, x <> IR_meas_array -> mem (main_publish y) x = mem y x)).
  { intros y. unfold main_publish. destruct (_ && _); repeat split.
    intros x Hx. rewrite mem_wr. destruct x; try reflexivity; congruence. }
  assert (Hadc : forall y,
    encoder_A (main_adc IR y) = encoder_A y
    /\ encoder_B (main_adc IR y) = encoder_B y
    /\ regs (main_adc IR y) = regs y
    /\ (forall b, b <> GO -> bits (main_adc IR y) b = bits y b)
    /\ (forall x, x <> adc_flag -> x <> adc_reading_number ->
          x <> IR_temp_array -> x <> display_value ->
          mem (main_adc IR y) x = mem y x)).
  { intros y. unfold main_adc. destruct (negb (mem y adc_flag =? 0));
      [|repeat split]. cbv zeta.
    destruct (negb _).
    - unfold process_measurement, update_sensor, convert_measurement_to_binary.
      repeat match goal with |- context [if ?c then _ else _] => destruct c end;
        repeat split;
        try (intros b Hb; rewrite bits_wbit; destruct b; try reflexivity;
             congruence);
        intros x H1 H2 H3 H4; destruct x; try reflexivity; congruence.
    - repeat split;
        try (intros b Hb; rewrite bits_wbit; destruct b; try reflexivity;
             congruence);
        intros x H1 H2 H3 H4; destruct x; try reflexivity; congruence. }
  assert (Hlost : forall y,
    encoder_A (main_lost y) = encoder_A y
    /\ encoder_B (main_lost y) = encoder_B y
    /\ regs (main_lost y) = regs y /\ bits (main_lost y) = bits y
    /\ (forall x, x <> go_flag -> x <> go_flag_0 -> x <> count_lost ->
          mem (main_lost y) x = mem y x)).
  { intros y. unfold main_lost. destruct (_ >? _); [|repeat split]. cbv zeta.
    destruct (flash_frame 10 100 (do_call pause_delivery y))
      as (H1 & H2 & H3 & _ & _ & H6 & H7 & _).
    split; [rewrite !encoder_A_wr, H6; reflexivity|].
    split; [rewrite !encoder_B_wr, H7; reflexivity|].
    split; [rewrite !regs_wr, H2; reflexivity|].
    split; [rewrite !bits_wr, H3; reflexivity|].
    intros x X1 X2 X3. rewrite !mem_wr, H1, mem_do_call.
    destruct x; try reflexivity; congruence. }
  assert (Hstop : forall y,
    encoder_A (main_stop y) = encoder_A y
    /\ encoder_B (main_stop y) = encoder_B y
    /\ regs (main_stop y) = regs y
    /\ (forall b, b <> ADIE -> bits (main_stop y) b = bits y b)
    /\ (forall x, x <> go_flag -> x <> go_flag_0 -> x <> count_stop ->
          mem (main_stop y) x = mem y x)).
  { intros y. unfold main_stop. destruct (_ >? _); [|repeat split]. cbv zeta.
    destruct (flash_frame 2 1000 (do_call pause_delivery y))
      as (H1 & H2 & H3 & _ & _ & H6 & H7 & _).
    split; [rewrite encoder_A_wbit, encoder_A_do_call, !encoder_A_wr,
              encoder_A_do_call, H6; reflexivity|].
    split; [rewrite encoder_B_wbit, encoder_B_do_call, !encoder_B_wr,
              encoder_B_do_call, H7; reflexivity|].
    split; [rewrite regs_wbit, regs_do_call, !regs_wr, regs_do_call, H2;
            reflexivity|].
    split.
    - intros b Hb.
      rewrite bits_wbit, bits_do_call, !bits_wr, bits_do_call, H3, bits_do_call.
      destruct b; try reflexivity; congruence.
    - intros x X1 X2 X3.
      rewrite mem_wbit, mem_do_call, !mem_wr, mem_do_call, H1, mem_do_call.
      destruct x; try reflexivity; congruence. }
  destruct (Hgo m) as (G1 & G2 & G3 & G4).
  destruct (Hpub (main_go m)) as (P1 & P2 & P3 & P4 & P5).
  destruct (Hadc (main_publish (main_go m))) as (A1 & A2 & A3 & A4 & A5).
  destruct (Hlost (main_adc IR (main_publish (main_go m))))
    as (L1 & L2 & L3 & L4 & L5).
  destruct (Hstop (main_lost (main_adc IR (main_publish (main_go m)))))
    as (S1 & S2 & S3 & S4 & S5).
  split; [rewrite S1, L1, A1, P1, G1; reflexivity|].
  split; [rewrite S2, L2, A2, P2, G2; reflexivity|].
  split; [rewrite S3, L3, A3, P3, G3; reflexivity|].
  split.
  - intros x X1 X2 X3 X4 X5 X6 X7 X8 X9.
    rewrite S5, L5, A5, P5 by assumption. apply main_go_mem. exact X2.
  - intros b B1 B2. rewrite S4, L4, A4, P4, G4 by assumption. reflexivity.
Qed.

(** X20.  An iteration of [main] writes no encoder, no byte register,
    neither button sample, not [adc_reading] and not [blink_count], and of
    the single bits only [GO] and [ADIE]. *)
Theorem main_writes_only_its_own (IR : sensor_ptr -> IRSensor) (m : machine) :
  encoder_A (main_loop IR m) = encoder_A m
  /\ encoder_B (main_loop IR m) = encoder_B m
  /\ regs (main_loop IR m) = regs m
  /\ mem (main_loop IR m) button_state = mem m button_state
  /\ mem (main_loop IR m) button_state_0 = mem m button_state_0
  /\ mem (main_loop IR m) adc_reading = mem m adc_reading
  /\ mem (main_loop IR m) blink_count = mem m blink_count
  /\ (forall b, b <> GO -> b <> ADIE -> bits (main_loop IR m) b = bits m b).
Proof.
  destruct (main_loop_writes IR m) as (H1 & H2 & H3 & H4 & H5).
  repeat split; try assumption; apply H4; discriminate.
Qed.

(** ** The encoders in a running system *)

Lemma shift_in_ok p e :
  pin_a (shift_in p e) = pin_a e /\ pin_b (shift_in p e) = pin_b e
  /\ 0 <= reading (shift_in p e) < 256
  /\ -32768 <= count (shift_in p e) <= 32767.
Proof.
  unfold shift_in. cbn [pin_a pin_b reading count].
  split; [reflexivity|]. split; [reflexivity|]. split.
  - rewrite shifted_pins.
    pose proof (Z.mod_pos_bound (p / 16) 4 ltac:(lia)) as Hb.
    change 256 with (4 * 64). rewrite Zmult_mod_distr_l.
    pose proof (Z.mod_pos_bound (reading e) 64 ltac:(lia)). lia.
  - unfold to_short.
    match goal with |- context [?a mod 65536] =>
      pose proof (Z.mod_pos_bound a 65536 ltac:(lia)) end.
    lia.
Qed.

Lemma LoPri_pass_encoders bh m m' :
  encoders_ok m -> LoPri_pass bh m = Continue m' -> encoders_ok m'.
Proof.
  intros H Hp.
  pose proof (LoPri_pass_kept bh _ _ Hp) as (_ & _ & _ & _ & _ & KB).
  revert Hp. unfold LoPri_pass.
  destruct (bits m ADIF); [intros R; injection R as <-; exact H|].
  destruct (bits m RBIF).
  { intros R; injection R as <-. destruct H as (HB & Ha & Hb & _).
    destruct (shift_in_ok (regs m PORTB) (encoder_A m)) as (S1 & S2 & S3 & S4).
    unfold encoders_ok, lo_encoder, update_encoders.
    rewrite encoder_A_wbit. cbn [encoder_A encoder_B wbit set_encoder_A].
    rewrite S1, S2. auto. }
  destruct (bits m CCP7IF && bits m CCP7IE).
  { intros R; injection R as <-. unfold encoders_ok, lo_debounce. cbv zeta.
    destruct (negb _ && negb _); exact H. }
  destruct (bits m CCP6IF).
  { intros R; injection R as <-.
    destruct (lo_display_frame bh m) as (_ & _ & _ & _ & _ & EA & EB).
    unfold encoders_ok. rewrite EA, EB. exact H. }
  destruct (bits m CCP3IF); [|discriminate].
  destruct (lo_control m) as [x1|] eqn:E; [|discriminate].
  intros R; injection R as <-.
  destruct (lo_control_frame _ _ E) as (_ & _ & _ & _ & _ & EA & EB).
  unfold encoders_ok. rewrite EA, EB. exact H.
Qed.

Lemma HiPri_pass_encoders m m' :
  encoders_ok m -> HiPri_pass m = Continue m' -> encoders_ok m'.
Proof.
  intros H. unfold HiPri_pass.
  destruct (bits m SSP1IF); [intros R; injection R as <-; exact H|].
  destruct (bits m INT0IF); [|discriminate].
  intros R; injection R as <-; exact H.
Qed.

(** X19.  In every state the system can reach, [encoder_B] is as [init]
    left it, with no tick counted; [encoder_A] keeps its two pins, its
    reading is a [char] and its count a 16-bit signed number. *)
Theorem encoders_in_a_running_system
    (IR : sensor_ptr -> IRSensor) (bh : Z -> Z -> Z * Z) (m : machine) :
  reachable IR bh m ->
  encoder_B m = init_encoder ENC_2A ENC_2B
  /\ count (encoder_B m) = 0
  /\ pin_a (encoder_A m) = ENC_1A /\ pin_b (encoder_A m) = ENC_1B
  /\ 0 <= reading (encoder_A m) < 256
  /\ -32768 <= count (encoder_A m) <= 32767.
Proof.
  intros Hr.
  assert (H : encoders_ok m).
  { induction Hr as [r b|e m m' _ IH Hf].
    - unfold encoders_ok. simpl. repeat split; lia.
    - destruct e as [r b| | |]; simpl in Hf.
      + injection Hf as <-. exact IH.
      + revert Hf. unfold HiPriISR.
        apply (dispatch_inv encoders_ok HiPri_pass); [|exact IH].
        intros x x'. apply HiPri_pass_encoders.
      + revert Hf. unfold LoPriISR.
        apply (dispatch_inv encoders_ok (LoPri_pass bh)); [|exact IH].
        intros x x'. apply LoPri_pass_encoders.
      + injection Hf as <-.
        destruct (main_loop_writes IR m) as (EA & EB & _).
        unfold encoders_ok. rewrite EA, EB. exact IH. }
  destruct H as (HB & H). rewrite HB. split; [reflexivity|].
  split; [reflexivity|]. exact H.
Qed.

Lemma encoders_in_a_running_system_witness :
  counts_of (run sensors still_display busy_events power_on) = (-1, 0)
  /\ snd (counts_of (run sensors still_display busy_events power_on)) = 0.
Proof.
  assert (T : counts_of (run sensors still_display busy_events power_on)
              = (-1, 0)) by (vm_compute; reflexivity).
  split; [exact T|].
  destruct (run sensors still_display busy_events power_on) as [m| |] eqn:E;
    try discriminate T.
  cbn [counts_of snd].
  apply (encoders_in_a_running_system sensors still_display m).
  exact (run_reachable sensors still_display busy_events power_on m
           (reach_boot sensors still_display quiet_regs quiet_bits) E).
Defined.

(** ** Ticks add up *)

Lemma turns_cons p ports m : turns (p :: ports) m = turns ports (turn p m).
Proof. reflexivity. Qed.

(** X18.  As long as the count cannot leave its 16-bit range, a sequence
    of calls of [update_encoders] adds to the count of [encoder_A] exactly
    the sum of the table entries of the readings it goes through. *)
Theorem encoder_count_adds_the_table (ports : list Z) : forall m : machine,
  -32768 <= count (encoder_A m) - Z.of_nat (length ports) ->
  count (encoder_A m) + Z.of_nat (length ports) <= 32767 ->
  count (encoder_A (turns ports m))
  = count (encoder_A m) + net_delta (readings (reading (encoder_A m)) ports).
Proof.
  induction ports as [|p t IH]; intros m Hlo Hhi.
  - simpl. lia.
  - rewrite turns_cons. cbn [length] in Hlo, Hhi.
    assert (E : encoder_A (turn p m) = shift_in p (encoder_A m)) by reflexivity.
    pose proof (lookup_bound
      (Z.land (Z.lor (to_char (Z.shiftl (reading (encoder_A m)) 2))
                 (Z.land (Z.shiftr (Z.land p 240) 4) 3)) 15)) as Hb.
    assert (Ec : count (encoder_A (turn p m))
                 = count (encoder_A m)
                   + lookup (Z.land (Z.lor (to_char (Z.shiftl (reading (encoder_A m)) 2))
                               (Z.land (Z.shiftr (Z.land p 240) 4) 3)) 15)).
    { rewrite E. unfold shift_in. cbn [count]. apply to_short_small. lia. }
    assert (Er : reading (encoder_A (turn p m))
                 = Z.lor (to_char (Z.shiftl (reading (encoder_A m)) 2))
                     (Z.land (Z.shiftr (Z.land p 240) 4) 3)).
    { rewrite E. reflexivity. }
    rewrite IH by lia. rewrite Ec, Er. cbn [readings net_delta]. lia.
Qed.

Lemma encoder_count_adds_the_table_witness :
  count (encoder_A (turns [16; 48; 32; 0] power_on))
  = count (encoder_A power_on)
    + net_delta (readings (reading (encoder_A power_on)) [16; 48; 32; 0]).
Proof.
  apply (encoder_count_adds_the_table [16; 48; 32; 0] power_on);
    cbv; discriminate.
Defined.

(** ** The control period on a pattern out of range *)

Lemma regs_free_mem r v r' v' m :
  mem (wreg r v (wreg r' v' m)) = mem m.
Proof. reflexivity. Qed.

(** X13.  The control period reads an unassigned [status] exactly when
    [IR_meas_array] holds a value outside 0..7: the switch has no default
    case. *)
Theorem control_period_undefined_out_of_range (m : machine) :
  lo_control m = None
  <-> mem m IR_meas_array < 0 \/ 7 < mem m IR_meas_array.
Proof.
  split.
  - intros H.
    destruct (Z_lt_le_dec (mem m IR_meas_array) 0) as [A|A]; [auto|].
    destruct (Z_lt_le_dec 7 (mem m IR_meas_array)) as [B|B]; [auto|].
    destruct (lo_control_defined m) as [m' E]; [lia|]. congruence.
  - intros H. unfold lo_control. cbv zeta.
    rewrite regs_free_mem.
    rewrite classifier_out_of_range by exact H. reflexivity.
Qed.

(** ** Every call to the motor driver *)

Lemma normal_duties meas r l :
  convert_array_to_inputs None None meas = (Some r, Some l, Some 0) ->
  0 <= r <= 50 /\ 0 <= l <= 50 /\ r + l = 50.
Proof.
  intros H.
  assert (Hs : status_of meas = Some 0) by (unfold status_of; rewrite H; reflexivity).
  apply status_partition in Hs.
  destruct Hs as [E|[E|[E|[E|E]]]]; subst meas; cbn in H;
    injection H as <- <-; lia.
Qed.

Lemma flashes_bounded n ms : Forall bounded_drive (flashes n ms).
Proof.
  induction n as [|k IH]; simpl; [constructor|].
  repeat (constructor; [exact I|]). exact IH.
Qed.

Lemma main_loop_trace (IR : sensor_ptr -> IRSensor) (m : machine) :
  exists calls, trace (main_loop IR m) = trace m ++ calls
                /\ Forall bounded_drive calls.
Proof.
  unfold main_loop.
  assert (Hgo : forall y, exists c, trace (main_go y) = trace y ++ c
                                    /\ Forall bounded_drive c).
  { intros y. unfold main_go. destruct (negb _).
    - destruct (mem y go_flag =? 1); [|destruct (mem y go_flag =? 0)];
        rewrite trace_wr, ?trace_do_call.
      + eexists. split; [reflexivity|]. repeat constructor.
      + eexists. split; [reflexivity|]. repeat constructor.
      + exists []. rewrite app_nil_r. split; [reflexivity|constructor].
    - exists []. rewrite app_nil_r. split; [reflexivity|constructor]. }
  assert (Hpub : forall y, trace (main_publish y) = trace y).
  { intros y. unfold main_publish. destruct (_ && _); reflexivity. }
  assert (Hadc : forall y, trace (main_adc IR y) = trace y).
  { intros y. unfold main_adc. destruct (negb (mem y adc_flag =? 0));
      [|reflexivity]. cbv zeta. destruct (negb _); [|reflexivity].
    unfold process_measurement, update_sensor, convert_measurement_to_binary.
    repeat match goal with |- context [if ?c then _ else _] => destruct c end;
      reflexivity. }
  assert (Hlost : forall y, exists c, trace (main_lost y) = trace y ++ c
                                      /\ Forall bounded_drive c).
  { intros y. destruct (Z_le_gt_dec (mem y count_lost) 10) as [H|H].
    - rewrite main_lost_idle by exact H. exists []. rewrite app_nil_r.
      split; [reflexivity|constructor].
    - destruct (main_lost_fires y H) as (_ & F & _).
      eexists. split; [exact F|]. constructor; [exact I|apply flashes_bounded]. }
  assert (Hstop : forall y, exists c, trace (main_stop y) = trace y ++ c
                                      /\ Forall bounded_drive c).
  { intros y. destruct (Z_le_gt_dec (mem y count_stop) 10) as [H|H].
    - rewrite main_stop_idle by exact H. exists []. rewrite app_nil_r.
      split; [reflexivity|constructor].
    - destruct (main_stop_fires y H) as (_ & F & _).
      eexists. split; [exact F|]. constructor; [exact I|].
      apply Forall_app. split; [apply flashes_bounded|repeat constructor]. }
  destruct (Hgo m) as (c1 & E1 & B1).
  destruct (Hlost (main_adc IR (main_publish (main_go m)))) as (c2 & E2 & B2).
  destruct (Hstop (main_lost (main_adc IR (main_publish (main_go m)))))
    as (c3 & E3 & B3).
  exists (c1 ++ c2 ++ c3). split.
  - rewrite E3, E2, Hadc, Hpub, E1, <- !app_assoc. reflexivity.
  - apply Forall_app. split; [exact B1|]. apply Forall_app. split; assumption.
Qed.

Lemma LoPri_pass_trace bh m m' :
  Forall bounded_drive (trace m) -> LoPri_pass bh m = Continue m' ->
  Forall bounded_drive (trace m').
Proof.
  intros H. unfold LoPri_pass.
  destruct (bits m ADIF); [intros R; injection R as <-; exact H|].
  destruct (bits m RBIF); [intros R; injection R as <-; exact H|].
  destruct (bits m CCP7IF && bits m CCP7IE).
  { intros R; injection R as <-. unfold lo_debounce. cbv zeta.
    destruct (negb _ && negb _); exact H. }
  destruct (bits m CCP6IF).
  { intros R; injection R as <-. unfold lo_display. cbv zeta.
    destruct (bh _ _) as [c d]. rewrite trace_wbit, trace_do_call, !trace_wr.
    apply Forall_app. split; [exact H|repeat constructor]. }
  destruct (bits m CCP3IF); [|discriminate].
  destruct (lo_control m) as [x1|] eqn:E; [|discriminate].
  intros R; injection R as <-.
  revert E. unfold lo_control. cbv zeta. rewrite regs_free_mem.
  destruct (convert_array_to_inputs None None (mem m IR_meas_array))
    as [[r l] [st|]] eqn:C; [|discriminate].
  destruct (Z.eqb_spec st 0) as [S0|S0].
  - subst st. destruct r as [r|]; [|discriminate].
    destruct l as [l|]; [|discriminate].
    intros R; injection R as <-.
    rewrite trace_wbit, !trace_wr, trace_do_call.
    apply Forall_app. split; [exact H|].
    constructor; [|constructor]. exact (normal_duties _ _ _ C).
  - destruct (st =? 1); [|destruct (st =? 2)];
      intros R; injection R as <-; exact H.
Qed.

Lemma HiPri_pass_trace m m' :
  Forall bounded_drive (trace m) -> HiPri_pass m = Continue m' ->
  Forall bounded_drive (trace m').
Proof.
  intros H. unfold HiPri_pass.
  destruct (bits m SSP1IF).
  { intros R; injection R as <-. unfold hi_spi.
    rewrite trace_wbit, trace_do_call.
    apply Forall_app. split; [exact H|repeat constructor]. }
  destruct (bits m INT0IF); [|discriminate].
  intros R; injection R as <-; exact H.
Qed.

(** X21.  In every state the system can reach, every call of
    [motors_drive] made so far passed two duties within 0..50 that add up
    to 50. *)
Theorem motors_are_driven_within_bounds
    (IR : sensor_ptr -> IRSensor) (bh : Z -> Z -> Z * Z) (m : machine) :
  reachable IR bh m ->
  forall r l, In (motors_drive r l) (trace m) ->
    0 <= r <= 50 /\ 0 <= l <= 50 /\ r + l = 50.
Proof.
  intros Hr.
  assert (H : Forall bounded_drive (trace m)).
  { induction Hr as [r b|e m m' _ IH Hf]; [constructor|].
    destruct e as [r b| | |]; simpl in Hf.
    - injection Hf as <-. exact IH.
    - revert Hf. unfold HiPriISR.
      apply (dispatch_inv (fun x => Forall bounded_drive (trace x)) HiPri_pass);
        [|exact IH].
      intros x x'. apply HiPri_pass_trace.
    - revert Hf. unfold LoPriISR.
      apply (dispatch_inv (fun x => Forall bounded_drive (trace x))
               (LoPri_pass bh)); [|exact IH].
      intros x x'. apply LoPri_pass_trace.
    - injection Hf as <-.
      destruct (main_loop_trace IR m) as (c & E & B). rewrite E.
      apply Forall_app. split; assumption. }
  intros r l Hin. rewrite Forall_forall in H. exact (H _ Hin).
Qed.

(** ** Faults since the last normal period *)

(** X22.  The fault counters count the lost and the stop periods since the
    last normal period, however the two kinds are interleaved: a stop
    period does not reset [count_lost] nor a lost period [count_stop]
    (counts up to 255). *)
Theorem counters_count_faults_since_normal (ps : list Z) : forall m : machine,
  Forall (fun p => is_lost p = true \/ is_stop p = true) ps ->
  0 <= mem m count_lost -> 0 <= mem m count_stop ->
  mem m count_lost + Z.of_nat (length ps) <= 255 ->
  mem m count_stop + Z.of_nat (length ps) <= 255 ->
  exists m', fault_periods ps m = Some m'
    /\ mem m' count_lost
       = mem m count_lost + Z.of_nat (length (filter is_lost ps))
    /\ mem m' count_stop
       = mem m count_stop + Z.of_nat (length (filter is_stop ps)).
Proof.
  induction ps as [|p t IH]; intros m Hall L0 S0 Lb Sb.
  - exists m. simpl. repeat split; lia.
  - inversion Hall as [|p' t' Hp Ht]; subst. cbn [length] in Lb, Sb.
    cbn [fault_periods filter].
    assert (Hm : mem (wr IR_meas_array p m) IR_meas_array = p) by reflexivity.
    destruct Hp as [Hp|Hp].
    + assert (Hs : status_of p = Some 1).
      { revert Hp. unfold is_lost. destruct (status_of p) as [[|[| |]|]|];
          congruence. }
      assert (Hns : is_stop p = false) by (unfold is_stop; rewrite Hs; reflexivity).
      destruct (lo_control_lost (wr IR_meas_array p m)) as (m1 & E & E1 & E2 & _);
        [rewrite Hm; exact Hs|].
      rewrite E, Hp, Hns. rewrite !mem_wr in E1, E2. cbn [var_beq] in E1, E2.
      rewrite to_char_small in E1 by lia.
      destruct (IH m1 Ht) as (m' & F & F1 & F2); try lia.
      exists m'. split; [exact F|]. cbn [length]. split; lia.
    + assert (Hs : status_of p = Some 2).
      { revert Hp. unfold is_stop. destruct (status_of p) as [[|[|[| |]|]|]|];
          congruence. }
      assert (Hnl : is_lost p = false) by (unfold is_lost; rewrite Hs; reflexivity).
      destruct (lo_control_stop (wr IR_meas_array p m)) as (m1 & E & E1 & E2 & _);
        [rewrite Hm; exact Hs|].
      rewrite E, Hp, Hnl. rewrite !mem_wr in E1, E2. cbn [var_beq] in E1, E2.
      rewrite to_char_small in E1 by lia.
      destruct (IH m1 Ht) as (m' & F & F1 & F2); try lia.
      exists m'. split; [exact F|]. cbn [length]. split; lia.
Qed.

Lemma motors_are_driven_within_bounds_witness :
  trace_of (run sensors still_display centred_events power_on)
  = [motors_drive 25 25]
  /\ (0 <= 25 <= 50 /\ 0 <= 25 <= 50 /\ 25 + 25 = 50).
Proof.
  assert (T : trace_of (run sensors still_display centred_events power_on)
              = [motors_drive 25 25]) by (vm_compute; reflexivity).
  split; [exact T|].
  destruct (run sensors still_display centred_events power_on) as [m| |] eqn:E;
    try discriminate T.
  apply (motors_are_driven_within_bounds sensors still_display m).
  - exact (run_reachable sensors still_display centred_events power_on m
             (reach_boot sensors still_display quiet_regs quiet_bits) E).
  - cbn [trace_of] in T. rewrite T. left. reflexivity.
Defined.

Lemma counters_count_faults_since_normal_witness :
  exists m', fault_periods [0; 7; 5] power_on = Some m'
    /\ mem m' count_lost
       = mem power_on count_lost + Z.of_nat (length (filter is_lost [0; 7; 5]))
    /\ mem m' count_stop
       = mem power_on count_stop + Z.of_nat (length (filter is_stop [0; 7; 5])).
Proof.
  assert (H : Forall (fun p => is_lost p = true \/ is_stop p = true) [0; 7; 5]).
  { constructor; [left; reflexivity|]. constructor; [right; reflexivity|].
    constructor; [left; reflexivity|]. constructor. }
  apply (counters_count_faults_since_normal [0; 7; 5] power_on H);
    cbv; discriminate.
Defined.
